(** * A shallow embedding of [jaclang/plugin.py]

    The minimal plugin system of Jac: hook implementation records, hook
    callers with their dispatch loop, and the plugin manager with its
    registration tables.  Python dictionaries are finite maps (with the
    list of their keys in insertion order where the code lists them), the
    [seen] set of the registration walk is a finite set, exceptions are an
    explicit outcome, every call made into plugin code is logged so that
    the order of invocation can be stated, and attribute lookup on the relay
    object sees the attributes of its class as well as the hook callers. *)

From stdpp Require Import gmap strings list fin_maps.

(** ** Python values, exceptions and logged runs *)

#[local] Set Warnings "-register-all".

Inductive PyObj : Type :=
  | PyNone
  | PyInt (z : Z)
  | PyStr (s : string)
  | PyList (items : list PyObj).

(** [result is not None] *)
Definition is_not_None (o : PyObj) : bool :=
  match o with
  | PyNone => false
  | _ => true
  end.

(** [**kwargs]: a dictionary from keyword to value. *)
Abbreviation Kwargs := (gmap string PyObj).

Inductive Exn : Type :=
  | KeyError (key : string)      (* a failed [d[key]] of the framework itself *)
  | HostError (info : string)    (* whatever plugin code raises *)
  | AttributeError (attr : string).
      (* the attribute [attr] of the relay is taken by something that is not
         a hook caller, or cannot be set *)

Inductive Outcome (A : Type) : Type :=
  | Returned (a : A)
  | Raised (e : Exn).
Arguments Returned {A} a.
Arguments Raised {A} e.

(** ** Signature inspector *)

Inductive ParamKind : Type :=
  | POSITIONAL_ONLY
  | POSITIONAL_OR_KEYWORD
  | VAR_POSITIONAL
  | KEYWORD_ONLY
  | VAR_KEYWORD.

Record Param : Type := {
  param_name : string;
  param_kind : ParamKind
}.

Record Code : Type := {
  co_argcount : nat;
  co_kwonlyargcount : nat;
  co_varnames : list string
}.

(** A callable as the framework sees it: what [inspect.signature] gives
    ([None] when it raises [ValueError] or [TypeError]), its [__code__]
    attribute if any, and what a call with keyword arguments does. *)
Record Callable : Type := {
  fn_signature : option (list Param);
  fn_code : option Code;
  fn_call : Kwargs → Outcome PyObj
}.

Definition is_var_keyword (p : Param) : bool :=
  match param_kind p with
  | VAR_KEYWORD => true
  | _ => false
  end.

Definition passable_by_keyword (p : Param) : bool :=
  match param_kind p with
  | POSITIONAL_OR_KEYWORD | KEYWORD_ONLY => true
  | _ => false
  end.

(** [None] is the accept-everything sentinel. *)
Definition _get_argnames (func : Callable) : option (list string) :=
  match fn_signature func with
  | Some params =>
      if existsb is_var_keyword params then None
      else Some (param_name <$> filter (λ p, passable_by_keyword p = true) params)
  | None =>
      match fn_code func with
      | Some code =>
          Some (take (co_argcount code + co_kwonlyargcount code) (co_varnames code))
      | None => None
      end
  end.

(** ** Plugin objects *)

(** One entry of [vars(klass)]: whether the unwrapped attribute is callable,
    whether it carries a true [_jac_hookimpl], and what
    [getattr(plugin, attr_name, None)] resolves to. *)
Record Member : Type := {
  raw_callable : bool;
  raw_hookimpl : bool;
  bound : option Callable
}.

(** A plugin object: [id(plugin)], its [__name__] attribute if it has one,
    [type(plugin).__name__], and the [vars] of each class on the method
    resolution order that [register] walks.  [is] on plugins is equality of
    [py_id].  The object [None] is not among them: where the code tests
    [plugin is None], the argument is an [option Plugin]. *)
Record Plugin : Type := {
  py_id : positive;
  py_name : option string;
  type_name : string;
  mro : list (list (string * Member))
}.

(** ** Hook implementation records *)

Record HookImpl : Type := {
  function : Callable;
  plugin : Plugin;
  plugin_name : string;
  argnames : option (list string)
}.

Definition HookImpl_init (func : Callable) (p : Plugin) (pname : string) : HookImpl :=
  {| function := func; plugin := p; plugin_name := pname;
     argnames := _get_argnames func |}.

(** ** Runs: the log of calls into plugin code, and how the run ended *)

Definition Call : Type := HookImpl * Kwargs.

Definition Run (A : Type) : Type := list Call * Outcome A.

#[global] Instance run_ret : MRet Run := λ A a, ([], Returned a).

#[global] Instance run_bind : MBind Run := λ A B k m,
  match m with
  | (log, Returned a) => let '(log', r) := k a in (log ++ log', r)
  | (log, Raised e) => (log, Raised e)
  end.

Definition lift_outcome {A} (o : Outcome A) : Run A := ([], o).

(** The call [impl.function] with the keyword arguments [kw], logged. *)
Definition invoke (impl : HookImpl) (kw : Kwargs) : Run PyObj :=
  ([(impl, kw)], fn_call (function impl) kw).

(** ** Hook callers *)

Record HookCaller : Type := {
  name : string;
  _hookimpls : list HookImpl;
  _firstresult : bool
}.

Definition HookCaller_init (hook_name : string) (firstresult : bool) : HookCaller :=
  {| name := hook_name; _hookimpls := []; _firstresult := firstresult |}.

Definition _add_hookimpl (hc : HookCaller) (impl : HookImpl) : HookCaller :=
  {| name := name hc; _hookimpls := _hookimpls hc ++ [impl];
     _firstresult := _firstresult hc |}.

Definition is_not_plugin (p : Plugin) (h : HookImpl) : Prop :=
  py_id (plugin h) ≠ py_id p.

#[global] Instance is_not_plugin_dec p h : Decision (is_not_plugin p h).
Proof. unfold is_not_plugin. apply _. Defined.

Definition _remove_plugin (hc : HookCaller) (p : Plugin) : HookCaller :=
  {| name := name hc; _hookimpls := filter (is_not_plugin p) (_hookimpls hc);
     _firstresult := _firstresult hc |}.

Definition get_hookimpls (hc : HookCaller) : list HookImpl := _hookimpls hc.

(** [kwargs[name]] *)
Definition getitem (kwargs : Kwargs) (key : string) : Outcome PyObj :=
  match kwargs !! key with
  | Some v => Returned v
  | None => Raised (KeyError key)
  end.

(** [{name: kwargs[name] for name in argnames if name in kwargs}], built
    entry by entry onto [acc]. *)
Fixpoint dict_comprehension (names : list string) (kwargs acc : Kwargs)
  : Outcome Kwargs :=
  match names with
  | [] => Returned acc
  | key :: rest =>
      if bool_decide (key ∈ dom kwargs) then
        match getitem kwargs key with
        | Returned v => dict_comprehension rest kwargs (<[key := v]> acc)
        | Raised e => Raised e
        end
      else dict_comprehension rest kwargs acc
  end.

Definition _call_impl (impl : HookImpl) (kwargs : Kwargs) : Run PyObj :=
  match argnames impl with
  | None => invoke impl kwargs
  | Some names =>
      kw ← lift_outcome (dict_comprehension names kwargs ∅);
      invoke impl kw
  end.

(** The [firstresult] loop over [reversed(self._hookimpls)]. *)
Fixpoint firstresult_loop (impls : list HookImpl) (kwargs : Kwargs) : Run PyObj :=
  match impls with
  | [] => mret PyNone
  | impl :: rest =>
      result ← _call_impl impl kwargs;
      if is_not_None result then mret result
      else firstresult_loop rest kwargs
  end.

(** The collecting loop; [results] is the list being appended to. *)
Fixpoint collect_loop (impls : list HookImpl) (kwargs : Kwargs)
    (results : list PyObj) : Run (list PyObj) :=
  match impls with
  | [] => mret results
  | impl :: rest =>
      result ← _call_impl impl kwargs;
      collect_loop rest kwargs
        (if is_not_None result then results ++ [result] else results)
  end.

(** [HookCaller.__call__] *)
Definition HookCaller_call (hc : HookCaller) (kwargs : Kwargs) : Run PyObj :=
  if _firstresult hc then firstresult_loop (reverse (_hookimpls hc)) kwargs
  else
    results ← collect_loop (reverse (_hookimpls hc)) kwargs [];
    mret (PyList results).

(** ** Plugin manager *)

Definition outcome_map {A B} (f : A → B) (o : Outcome A) : Outcome B :=
  match o with
  | Returned a => Returned (f a)
  | Raised e => Raised e
  end.

(** A loop whose body may raise: the state reached so far is kept, and the
    rest of the list is not visited. *)
Fixpoint run_each {S A} (step : S → A → S * Outcome unit) (s : S) (l : list A)
  : S * Outcome unit :=
  match l with
  | [] => (s, Returned tt)
  | a :: rest =>
      match step s a with
      | (s', Returned _) => run_each step s' rest
      | (s', Raised e) => (s', Raised e)
      end
  end.

Record EntryPoint : Type := {
  ep_name : string;
  ep_group : string;
  ep_load : option Plugin      (* [None]: [ep.load()] raises *)
}.

Record Distribution : Type := {
  metadata : gmap string string;
  entry_points : list EntryPoint
}.

Record _DistFacade : Type := { _dist : Distribution }.

Definition version (d : _DistFacade) : string :=
  default "0.0.0"%string (metadata (_dist d) !! "Version"%string).

(** The state of a manager.  [_name2plugin] comes with its keys in
    insertion order.  [self.hook] is the relay: [hook] is [vars(self.hook)],
    the hook callers by attribute name, and [hook_class] says which other
    names attribute lookup on the relay finds on its class ([HookRelay] and
    [object]): methods, [__doc__], [__dict__] and the like, each with
    whether it is a data descriptor, which goes before [vars(self.hook)]. *)
Record PluginManager : Type := {
  project_name : string;
  _name2plugin : gmap string Plugin;
  _name2plugin_keys : list string;
  _plugin2name : gmap positive string;
  _plugin_distinfo : list (Plugin * _DistFacade);
  hook : gmap string HookCaller;
  hook_class : gmap string bool
}.

(** A new manager, in a runtime where the class of the relay has the
    attributes [class_attrs]. *)
Definition PluginManager_init (pname : string) (class_attrs : gmap string bool)
  : PluginManager :=
  {| project_name := pname; _name2plugin := ∅; _name2plugin_keys := [];
     _plugin2name := ∅; _plugin_distinfo := []; hook := ∅;
     hook_class := class_attrs |}.

(** What [getattr(self.hook, attr_name, None)] gives. *)
Inductive RelayAttr : Type :=
  | AttrNone                      (* [None], and the attribute can be set *)
  | AttrCaller (hc : HookCaller)  (* a hook caller *)
  | AttrClass                     (* [__class__]: the class [HookRelay] *)
  | AttrOther.                    (* another object, or [None] that cannot be set *)

Definition relay_getattr (cls : gmap string bool) (hooks : gmap string HookCaller)
    (attr_name : string) : RelayAttr :=
  if decide (attr_name = "__class__"%string) then AttrClass
  else
    match cls !! attr_name with
    | Some true => AttrOther
    | Some false =>
        match hooks !! attr_name with
        | Some hc => AttrCaller hc
        | None => AttrOther
        end
    | None =>
        match hooks !! attr_name with
        | Some hc => AttrCaller hc
        | None => AttrNone
        end
    end.

(** Truth value of a string: the empty string is false. *)
Definition truthy (s : string) : bool :=
  match s with
  | EmptyString => false
  | _ => true
  end.

(** [a or b] where [a] is a string or [None]. *)
Definition py_or (a : option string) (b : string) : string :=
  match a with
  | Some n => if truthy n then n else b
  | None => b
  end.

Definition _canonical_name (p : Plugin) : string :=
  py_or (py_name p) (type_name p).

(** The body of the inner loop of [register], for one entry of
    [vars(klass).items()]; the state is [seen] and [vars(self.hook)].  When
    the relay has the name as something else than a hook caller,
    [hook._add_hookimpl] (or, for a [None] that cannot be replaced,
    [setattr]) raises [AttributeError]. *)
Definition register_attr (cls : gmap string bool) (p : Plugin) (pname : string)
    (st : gset string * gmap string HookCaller) (entry : string * Member)
  : (gset string * gmap string HookCaller) * Outcome unit :=
  let '(seen, hooks) := st in
  let '(attr_name, raw) := entry in
  if bool_decide (attr_name ∈ seen) then (st, Returned tt)
  else
    let seen := {[attr_name]} ∪ seen in
    if negb (raw_callable raw) then ((seen, hooks), Returned tt)
    else if negb (raw_hookimpl raw) then ((seen, hooks), Returned tt)
    else
      match bound raw with
      | None => ((seen, hooks), Returned tt)
      | Some method =>
          let impl := HookImpl_init method p pname in
          match relay_getattr cls hooks attr_name with
          | AttrNone =>
              let hc := HookCaller_init attr_name false in
              ((seen, <[attr_name := _add_hookimpl hc impl]> hooks), Returned tt)
          | AttrCaller hc =>
              ((seen, <[attr_name := _add_hookimpl hc impl]> hooks), Returned tt)
          | AttrClass | AttrOther =>
              ((seen, hooks), Raised (AttributeError attr_name))
          end
      end.

Definition register_walk (cls : gmap string bool) (p : Plugin) (pname : string)
    (hooks : gmap string HookCaller)
  : (gset string * gmap string HookCaller) * Outcome unit :=
  run_each (λ st klass, run_each (register_attr cls p pname) st klass)
           (∅, hooks) (mro p).

(** [register]: the tables are written before the walk, so they stay
    written when the walk raises. *)
Definition register (m : PluginManager) (p : Plugin) (name_arg : option string)
  : PluginManager * Outcome (option string) :=
  let pname := py_or name_arg (_canonical_name p) in
  if bool_decide (py_id p ∈ dom (_plugin2name m)) then (m, Returned None)
  else
    let walk := register_walk (hook_class m) p pname (hook m) in
    ({| project_name := project_name m;
        _name2plugin := <[pname := p]> (_name2plugin m);
        _name2plugin_keys :=
          if bool_decide (pname ∈ dom (_name2plugin m)) then _name2plugin_keys m
          else _name2plugin_keys m ++ [pname];
        _plugin2name := <[py_id p := pname]> (_plugin2name m);
        _plugin_distinfo := _plugin_distinfo m;
        hook := walk.1.2;
        hook_class := hook_class m |},
     outcome_map (λ _, Some pname) walk.2).

(** The first two lines of [unregister]: without a plugin object, the name
    is looked up in the name table. *)
Definition resolve_plugin (m : PluginManager) (plugin_arg : option Plugin)
    (name_arg : option string) : option Plugin :=
  match plugin_arg, name_arg with
  | None, Some n => _name2plugin m !! n
  | _, _ => plugin_arg
  end.

(** [d.pop(key, None)] on a dictionary with its keys. *)
Definition name_pop (d : gmap string Plugin * list string) (key : string)
  : gmap string Plugin * list string :=
  (delete key d.1, filter (λ k, k ≠ key) d.2).

Definition unregister (m : PluginManager) (plugin_arg : option Plugin)
    (name_arg : option string) : PluginManager * option Plugin :=
  match resolve_plugin m plugin_arg name_arg with
  | None => (m, None)
  | Some p =>
      let pname := _plugin2name m !! py_id p in
      let n2p :=
        match pname with
        | Some pn => name_pop (_name2plugin m, _name2plugin_keys m) pn
        | None => (_name2plugin m, _name2plugin_keys m)
        end in
      let n2p :=
        match name_arg with
        | Some n => if bool_decide (Some n ≠ pname) then name_pop n2p n else n2p
        | None => n2p
        end in
      ({| project_name := project_name m;
          _name2plugin := n2p.1;
          _name2plugin_keys := n2p.2;
          _plugin2name := delete (py_id p) (_plugin2name m);
          _plugin_distinfo := _plugin_distinfo m;
          hook := (λ hc, _remove_plugin hc p) <$> hook m;
          hook_class := hook_class m |},
       Some p)
  end.

Definition is_registered (m : PluginManager) (p : Plugin) : bool :=
  bool_decide (py_id p ∈ dom (_plugin2name m)).

(** What [getattr(spec_class, attr_name, None)] gives when it is not [None]:
    the method's [_jac_hookspec] dictionary, if it has one. *)
Record SpecMethod : Type := { _jac_hookspec : option (gmap string bool) }.

Definition set_firstresult (hc : HookCaller) (firstresult : bool) : HookCaller :=
  {| name := name hc; _hookimpls := _hookimpls hc; _firstresult := firstresult |}.

(** The loop body of [add_hookspecs] for one name of [dir(spec_class)]; the
    state is [vars(self.hook)] and the attributes of the relay's class.
    For [__class__] the assignment [hook._firstresult = firstresult] lands
    on the class [HookRelay], which thereby gets an attribute
    [_firstresult]; on any other object that is not a hook caller the
    assignment raises [AttributeError], as does [setattr] for a [None] that
    cannot be replaced. *)
Definition add_hookspec_attr (st : gmap string HookCaller * gmap string bool)
    (entry : string * option SpecMethod)
  : (gmap string HookCaller * gmap string bool) * Outcome unit :=
  let '(hooks, cls) := st in
  let '(attr_name, method) := entry in
  match method with
  | None => (st, Returned tt)
  | Some meth =>
      match _jac_hookspec meth with
      | None => (st, Returned tt)
      | Some spec_opts =>
          let firstresult := default false (spec_opts !! "firstresult"%string) in
          match relay_getattr cls hooks attr_name with
          | AttrNone =>
              ((<[attr_name := HookCaller_init attr_name firstresult]> hooks, cls),
               Returned tt)
          | AttrCaller hc =>
              ((<[attr_name := set_firstresult hc firstresult]> hooks, cls),
               Returned tt)
          | AttrClass =>
              ((hooks, <["_firstresult"%string := false]> cls), Returned tt)
          | AttrOther => (st, Raised (AttributeError attr_name))
          end
      end
  end.

Definition add_hookspecs (m : PluginManager)
    (spec_class : list (string * option SpecMethod))
  : PluginManager * Outcome unit :=
  let run := run_each add_hookspec_attr (hook m, hook_class m) spec_class in
  ({| project_name := project_name m;
      _name2plugin := _name2plugin m;
      _name2plugin_keys := _name2plugin_keys m;
      _plugin2name := _plugin2name m;
      _plugin_distinfo := _plugin_distinfo m;
      hook := run.1.1;
      hook_class := run.1.2 |},
   run.2).

(** [list(self._name2plugin.items())], in the order of the keys. *)
Definition list_name_plugin (m : PluginManager) : list (string * Plugin) :=
  omap (λ n, (λ q, (n, q)) <$> _name2plugin m !! n) (_name2plugin_keys m).

Definition list_plugin_distinfo (m : PluginManager) : list (Plugin * _DistFacade) :=
  _plugin_distinfo m.

(** [self._plugin_distinfo.append(entry)] *)
Definition append_distinfo (m : PluginManager) (entry : Plugin * _DistFacade)
  : PluginManager :=
  {| project_name := project_name m;
     _name2plugin := _name2plugin m;
     _name2plugin_keys := _name2plugin_keys m;
     _plugin2name := _plugin2name m;
     _plugin_distinfo := _plugin_distinfo m ++ [entry];
     hook := hook m;
     hook_class := hook_class m |}.

(** The loop body of [load_setuptools_entrypoints] for one entry point of
    [dist]; the state is the manager and [count].  The call of [register]
    is outside the [try]: what it raises ends the load. *)
Definition load_entry_point (group : string) (dist : Distribution)
    (st : PluginManager * nat) (ep : EntryPoint)
  : (PluginManager * nat) * Outcome unit :=
  let '(m, count) := st in
  if bool_decide (ep_group ep ≠ group) then (st, Returned tt)
  else if bool_decide (ep_name ep ∈ dom (_name2plugin m)) then (st, Returned tt)
  else
    match ep_load ep with
    | None => (st, Returned tt)
    | Some p =>
        match register m p (Some (ep_name ep)) with
        | (m1, Returned _) =>
            ((append_distinfo m1 (p, {| _dist := dist |}), S count), Returned tt)
        | (m1, Raised e) => ((m1, count), Raised e)
        end
    end.

Definition load_setuptools_entrypoints (m : PluginManager) (group : string)
    (distributions : list Distribution) : PluginManager * Outcome nat :=
  let run :=
    run_each (λ st dist, run_each (load_entry_point group dist) st (entry_points dist))
             (m, 0) distributions in
  (run.1.1, outcome_map (λ _, run.1.2) run.2).

(** States of a manager that the operations can produce, whether they
    return or raise. *)
Inductive reachable : PluginManager → Prop :=
  | reachable_init pname class_attrs :
      reachable (PluginManager_init pname class_attrs)
  | reachable_register m p name_arg :
      reachable m → reachable (register m p name_arg).1
  | reachable_unregister m plugin_arg name_arg :
      reachable m → reachable (unregister m plugin_arg name_arg).1
  | reachable_add_hookspecs m spec_class :
      reachable m → reachable (add_hookspecs m spec_class).1
  | reachable_load m group distributions :
      reachable m → reachable (load_setuptools_entrypoints m group distributions).1.

(** The hook implementation records of hook [h] (none if there is no such
    hook caller). *)
Definition impls_of (hooks : gmap string HookCaller) (h : string) : list HookImpl :=
  match hooks !! h with
  | Some hc => _hookimpls hc
  | None => []
  end.

(** The keyword arguments that [impl] is given out of [kwargs]. *)
Definition passed_kwargs (impl : HookImpl) (kwargs : Kwargs) : Kwargs :=
  match argnames impl with
  | None => kwargs
  | Some names => filter (λ kv, kv.1 ∈ names) kwargs
  end.

(** The log entry of a call of [impl] during a dispatch with [kwargs]. *)
Definition call_of (kwargs : Kwargs) (impl : HookImpl) : Call :=
  (impl, passed_kwargs impl kwargs).

(** What the function of [impl] answers to the arguments it is given. *)
Definition answer (kwargs : Kwargs) (impl : HookImpl) : Outcome PyObj :=
  fn_call (function impl) (passed_kwargs impl kwargs).

(** ** Invariants of the manager *)

(** The records among [impls] that belong to the plugin of identity [pid]. *)
Definition owned (pid : positive) (impls : list HookImpl) : list HookImpl :=
  filter (λ i, py_id (plugin i) = pid) impls.

(** The invariant that every reachable manager satisfies. *)
Record consistent (m : PluginManager) : Prop := {
  names_registered : ∀ n q,
    _name2plugin m !! n = Some q → _plugin2name m !! py_id q = Some n;
  impls_registered : ∀ h i,
    i ∈ impls_of (hook m) h → py_id (plugin i) ∈ dom (_plugin2name m);
  impls_once : ∀ h pid,
    length (owned pid (impls_of (hook m) h)) ≤ 1;
  keys_nodup : NoDup (_name2plugin_keys m);
  keys_bound : ∀ n, n ∈ _name2plugin_keys m ↔ is_Some (_name2plugin m !! n)
}.

(** The two tables read in both directions: every name is bound to a plugin
    registered under it, every registered identity is that of the plugin
    its name is bound to, and no two registered identities share a name. *)
Definition tables_mutually_consistent (m : PluginManager) : Prop :=
  (∀ n q, _name2plugin m !! n = Some q → _plugin2name m !! py_id q = Some n)
  ∧ (∀ pid n, _plugin2name m !! pid = Some n →
       ∃ q, _name2plugin m !! n = Some q ∧ py_id q = pid)
  ∧ (∀ pid1 pid2 n, _plugin2name m !! pid1 = Some n →
       _plugin2name m !! pid2 = Some n → pid1 = pid2).

(** ** The registration walk, by first occurrence *)

(** The first entry named [h] in a list of class entries. *)
Fixpoint first_entry (h : string) (entries : list (string * Member))
  : option Member :=
  match entries with
  | [] => None
  | (attr_name, raw) :: rest =>
      if decide (attr_name = h) then Some raw else first_entry h rest
  end.

(** The record built for a member, if it is a callable marked as a hook
    implementation that resolves on the plugin. *)
Definition member_impls (p : Plugin) (pname : string) (raw : Member)
  : list HookImpl :=
  if raw_callable raw && raw_hookimpl raw then
    match bound raw with
    | Some method => [HookImpl_init method p pname]
    | None => []
    end
  else [].

(** The records that a walk over [entries] contributes to hook [h]: decided
    by the first entry named [h]. *)
Definition entries_impls (p : Plugin) (pname : string)
    (entries : list (string * Member)) (h : string) : list HookImpl :=
  match first_entry h entries with
  | Some raw => member_impls p pname raw
  | None => []
  end.

(** The records that registering [p] under [pname] contributes to hook [h]:
    decided by the first member named [h] along the resolution order. *)
Definition plugin_impls (p : Plugin) (pname : string) (h : string)
  : list HookImpl :=
  match first_entry h (concat (mro p)) with
  | Some raw => member_impls p pname raw
  | None => []
  end.

Definition implements (p : Plugin) (h : string) : bool :=
  match first_entry h (concat (mro p)) with
  | Some raw =>
      raw_callable raw && raw_hookimpl raw
      && match bound raw with Some _ => true | None => false end
  | None => false
  end.

(** Whether the relay has the name [h] as something that cannot take a
    record: not a hook caller, and not free either. *)
Definition blocks (cls : gmap string bool) (hooks : gmap string HookCaller)
    (h : string) : bool :=
  match relay_getattr cls hooks h with
  | AttrNone | AttrCaller _ => false
  | AttrClass | AttrOther => true
  end.

Definition relay_blocks (m : PluginManager) (h : string) : bool :=
  blocks (hook_class m) (hook m) h.

(** ** What a stretch of the entry-point loader does *)


(** The entry points that the loader goes through, each with its
    distribution, in the order of the two loops. *)
Definition all_entry_points (distributions : list Distribution)
  : list (Distribution * EntryPoint) :=
  distributions ≫= λ dist, pair dist <$> entry_points dist.

(** ** The relay after an operation, hook by hook *)

(** The hook caller of [h] once the records [added] are appended to it; it
    is created with [firstresult=False] if there was none. *)
Definition extend_caller (h : string) (old : option HookCaller)
    (added : list HookImpl) : option HookCaller :=
  match added with
  | [] => old
  | _ => Some (foldl _add_hookimpl (default (HookCaller_init h false) old) added)
  end.

(** The [firstresult] option that a member of a spec class declares, if it
    is a marked method. *)
Definition spec_firstresult (method : option SpecMethod) : option bool :=
  match method with
  | Some meth =>
      match _jac_hookspec meth with
      | Some spec_opts => Some (default false (spec_opts !! "firstresult"%string))
      | None => None
      end
  | None => None
  end.

(** The hook caller of [h] once [firstresult] is declared for it. *)
Definition declare_caller (h : string) (old : option HookCaller)
    (firstresult : bool) : HookCaller :=
  match old with
  | Some hc => set_firstresult hc firstresult
  | None => HookCaller_init h firstresult
  end.

(** What the loop body of [add_hookspecs] does to [vars(self.hook)] and to
    the attributes of the relay's class when it does not raise. *)
Definition declare_attr (st : gmap string HookCaller * gmap string bool)
    (entry : string * option SpecMethod)
  : gmap string HookCaller * gmap string bool :=
  match spec_firstresult entry.2 with
  | None => st
  | Some firstresult =>
      if decide (entry.1 = "__class__"%string)
      then (st.1, <["_firstresult"%string := false]> st.2)
      else (<[entry.1 := declare_caller entry.1 (st.1 !! entry.1) firstresult]> st.1,
            st.2)
  end.

(** The option declared for the hook [h] by the last marked entry named
    [h]; a member named [__class__] declares no hook. *)
Fixpoint declared_policy (h : string)
    (spec_class : list (string * option SpecMethod)) : option bool :=
  match spec_class with
  | [] => None
  | (attr_name, method) :: rest =>
      match declared_policy h rest with
      | Some firstresult => Some firstresult
      | None =>
          if decide (attr_name = h) then
            if decide (attr_name = "__class__"%string) then None
            else spec_firstresult method
          else None
      end
  end.

(** Whether a marked member named [__class__] is among the entries. *)
Definition declares_class (spec_class : list (string * option SpecMethod)) : bool :=
  existsb (λ entry, bool_decide (entry.1 = "__class__"%string)
                    && bool_decide (is_Some (spec_firstresult entry.2)))
          spec_class.

(** The relay has a hook caller under the name [h], and no attribute of
    its class stands before it. *)
Definition declared (st : gmap string HookCaller * gmap string bool) (h : string)
  : Prop :=
  is_Some (st.1 !! h) ∧ st.2 !! h ≠ Some true.

(** What the records and hook callers of every reachable manager satisfy:
    a hook caller is named as its attribute of the relay, a record carries
    the name its plugin is registered under, and its [argnames] are those of
    its function. *)
Record relay_wf (m : PluginManager) : Prop := {
  caller_named : ∀ h hc, hook m !! h = Some hc → name hc = h;
  record_named : ∀ h i,
    i ∈ impls_of (hook m) h →
    _plugin2name m !! py_id (plugin i) = Some (plugin_name i);
  record_argnames : ∀ h i,
    i ∈ impls_of (hook m) h → argnames i = _get_argnames (function i)
}.

(** Sequences of operations from one manager to a later one; with
    [specs] false, [add_hookspecs] is not among them. *)
Inductive steps (specs : bool) : PluginManager → PluginManager → Prop :=
  | steps_refl m :
      steps specs m m
  | steps_register m m' p name_arg :
      steps specs m m' → steps specs m (register m' p name_arg).1
  | steps_unregister m m' plugin_arg name_arg :
      steps specs m m' → steps specs m (unregister m' plugin_arg name_arg).1
  | steps_load m m' group distributions :
      steps specs m m' →
      steps specs m (load_setuptools_entrypoints m' group distributions).1
  | steps_add_hookspecs m m' spec_class :
      specs = true →
      steps specs m m' → steps specs m (add_hookspecs m' spec_class).1.

(** Every hook caller of [hooks] is still in [hooks'], under its name; with
    [specs] false its [firstresult] flag is the same as well. *)
Definition callers_kept (specs : bool) (hooks hooks' : gmap string HookCaller)
  : Prop :=
  ∀ h hc, hooks !! h = Some hc →
    ∃ hc', hooks' !! h = Some hc' ∧ name hc' = name hc
           ∧ (specs = false → _firstresult hc' = _firstresult hc).

(** ** Sample plugins, managers and entry points *)

(** The attributes that lookup on a [HookRelay] instance finds on its class
    in CPython 3.12, besides [__class__]; [__dict__] and [__weakref__] are
    data descriptors. *)
Definition cpython_relay_class : gmap string bool :=
  list_to_map
    ((λ n, (n, false)) <$>
       ["__delattr__"; "__dir__"; "__doc__"; "__eq__"; "__format__"; "__ge__";
        "__getattribute__"; "__getstate__"; "__gt__"; "__hash__"; "__init__";
        "__init_subclass__"; "__le__"; "__lt__"; "__module__"; "__ne__";
        "__new__"; "__reduce__"; "__reduce_ex__"; "__repr__"; "__setattr__";
        "__sizeof__"; "__str__"; "__subclasshook__"]%string)
  ∪ {[ "__dict__"%string := true; "__weakref__"%string := true ]}.

Definition constant_hook (params : list Param) (v : PyObj) : Callable :=
  {| fn_signature := Some params; fn_code := None; fn_call := λ _, Returned v |}.

Definition marked_member (f : Callable) : Member :=
  {| raw_callable := true; raw_hookimpl := true; bound := Some f |}.

(** An instance of a class [tname] with one marked method [h] that returns [v]. *)
Definition one_hook_plugin (pid : positive) (tname : string) (v : PyObj) : Plugin :=
  {| py_id := pid; py_name := None; type_name := tname;
     mro := [[("h"%string, marked_member (constant_hook [] v))]; []] |}.

Definition plugin_A : Plugin := one_hook_plugin 1 "A" (PyStr "A").
Definition plugin_B : Plugin := one_hook_plugin 2 "B" (PyStr "B").
Definition plugin_C : Plugin := one_hook_plugin 3 "C" (PyStr "C").

Definition impl_A : HookImpl := HookImpl_init (constant_hook [] (PyStr "A")) plugin_A "A".
Definition impl_B : HookImpl := HookImpl_init (constant_hook [] (PyStr "B")) plugin_B "B".
Definition impl_C : HookImpl := HookImpl_init (constant_hook [] (PyStr "C")) plugin_C "C".

Definition fresh_manager : PluginManager :=
  PluginManager_init "jac" cpython_relay_class.

Definition manager_AB : PluginManager :=
  (register (register fresh_manager plugin_A None).1 plugin_B None).1.

Definition manager_ABC : PluginManager := (register manager_AB plugin_C None).1.

(** Two plugins registered under one name. *)
Definition manager_same_name : PluginManager :=
  (register (register fresh_manager plugin_A (Some "p"%string)).1
     plugin_B (Some "p"%string)).1.

(** A spec class that declares [h] with [firstresult=True]. *)
Definition spec_h_first : list (string * option SpecMethod) :=
  [("__doc__"%string, None);
   ("h"%string, Some {| _jac_hookspec := Some {["firstresult"%string := true]} |});
   ("helper"%string, Some {| _jac_hookspec := None |})].

Definition manager_AB_first : PluginManager :=
  (add_hookspecs manager_AB spec_h_first).1.

Definition caller_ABC : HookCaller :=
  {| name := "h"; _hookimpls := [impl_A; impl_B; impl_C]; _firstresult := false |}.

Definition caller_AB_first : HookCaller :=
  {| name := "h"; _hookimpls := [impl_A; impl_B]; _firstresult := true |}.

(** An instance whose class overrides the marked method [h] of its base
    class with an unmarked one. *)
Definition plugin_override : Plugin :=
  {| py_id := 5; py_name := None; type_name := "Override";
     mro := [[("h"%string,
               {| raw_callable := true; raw_hookimpl := false;
                  bound := Some (constant_hook [] (PyStr "sub")) |})];
             [("h"%string, marked_member (constant_hook [] (PyStr "base")))]] |}.

(** An instance of a class with the marked methods [g], [__str__] and [h],
    in this order. *)
Definition plugin_str : Plugin :=
  {| py_id := 6; py_name := None; type_name := "Str";
     mro := [[("g"%string, marked_member (constant_hook [] (PyStr "g")));
              ("__str__"%string, marked_member (constant_hook [] (PyStr "s")));
              ("h"%string, marked_member (constant_hook [] (PyStr "h")))]; []] |}.

(** A spec class whose [__init__] is marked, and after it [h]. *)
Definition spec_init : list (string * option SpecMethod) :=
  [("__init__"%string, Some {| _jac_hookspec := Some {["firstresult"%string := true]} |});
   ("h"%string, Some {| _jac_hookspec := Some {["firstresult"%string := true]} |})].

(** An instance of a marked class, given as spec class: its [__class__] is
    a marked member. *)
Definition spec_instance_of_marked_class : list (string * option SpecMethod) :=
  [("__class__"%string,
    Some {| _jac_hookspec := Some {["firstresult"%string := false]} |});
   ("h"%string, Some {| _jac_hookspec := Some {["firstresult"%string := true]} |})].

(** A distribution that advertises the same object under two names. *)
Definition dist_twice : Distribution :=
  {| metadata := {["Name"%string := "jac-sample"%string]};
     entry_points :=
       [ {| ep_name := "a"; ep_group := "jac"; ep_load := Some plugin_A |};
         {| ep_name := "b"; ep_group := "jac"; ep_load := Some plugin_A |} ] |}.

(** A distribution whose first entry point loads [plugin_str]. *)
Definition dist_str : Distribution :=
  {| metadata := {["Name"%string := "jac-str"%string]};
     entry_points :=
       [ {| ep_name := "s"; ep_group := "jac"; ep_load := Some plugin_str |};
         {| ep_name := "c"; ep_group := "jac"; ep_load := Some plugin_C |} ] |}.

(** An implementation with the one parameter [x]; it answers with the
    number of keyword arguments it was given. *)
Definition impl_x_only : HookImpl :=
  HookImpl_init
    {| fn_signature := Some [ {| param_name := "x"; param_kind := POSITIONAL_OR_KEYWORD |} ];
       fn_code := None;
       fn_call := λ kw, Returned (PyInt (Z.of_nat (size kw))) |}
    plugin_A "A".

(** ** More sample callables *)

(** [def f(a, /, x, *args, y): ...] *)
Definition params_a_x_args_y : list Param :=
  [ {| param_name := "a"; param_kind := POSITIONAL_ONLY |};
    {| param_name := "x"; param_kind := POSITIONAL_OR_KEYWORD |};
    {| param_name := "args"; param_kind := VAR_POSITIONAL |};
    {| param_name := "y"; param_kind := KEYWORD_ONLY |} ].

(** A callable without a readable signature whose code object has one
    positional and one keyword-only argument and a local variable. *)
Definition code_only_callable : Callable :=
  {| fn_signature := None;
     fn_code := Some {| co_argcount := 1; co_kwonlyargcount := 1;
                        co_varnames := ["x"; "y"; "tmp"]%string |};
     fn_call := λ kw, Returned (PyInt (Z.of_nat (size kw))) |}.

Definition raising_hook : Callable :=
  {| fn_signature := Some []; fn_code := None;
     fn_call := λ _, Raised (HostError "boom") |}.

Definition impl_raising : HookImpl := HookImpl_init raising_hook plugin_B "B".

Definition caller_A_raising_C : HookCaller :=
  {| name := "h"; _hookimpls := [impl_A; impl_raising; impl_C];
     _firstresult := false |}.

(** ** More sample managers and distributions *)

Definition callable_a_x_args_y : Callable :=
  {| fn_signature := Some params_a_x_args_y; fn_code := None;
     fn_call := λ kw, Returned (PyInt (Z.of_nat (size kw))) |}.

Definition kwargs_a_x_y_z : Kwargs :=
  {[ "a"%string := PyInt 0; "x"%string := PyInt 1; "y"%string := PyInt 2;
     "z"%string := PyInt 3 ]}.

(** [A] and [B] unregistered again after [h] was declared [firstresult]. *)
Definition manager_first_emptied : PluginManager :=
  (unregister (unregister manager_AB_first (Some plugin_A) None).1
     (Some plugin_B) None).1.

(** A distribution none of whose entry points gets loaded into
    [manager_AB]: another group, a name already bound, a failing load. *)
Definition dist_nothing : Distribution :=
  {| metadata := ∅;
     entry_points :=
       [ {| ep_name := "c"; ep_group := "other"; ep_load := Some plugin_C |};
         {| ep_name := "A"; ep_group := "jac"; ep_load := Some plugin_C |};
         {| ep_name := "broken"; ep_group := "jac"; ep_load := None |} ] |}.

Definition dist_C : Distribution :=
  {| metadata := {["Name"%string := "jac-c"%string; "Version"%string := "1.0"%string]};
     entry_points :=
       [ {| ep_name := "c"; ep_group := "jac"; ep_load := Some plugin_C |} ] |}.

(** [A] loaded from a distribution and unregistered afterwards. *)
Definition manager_loaded_unregistered : PluginManager :=
  (unregister (load_setuptools_entrypoints fresh_manager "jac" [dist_twice]).1
     (Some plugin_A) None).1.

(** * Dispatch *)

Section dispatch.
Implicit Types (impl : HookImpl) (kwargs acc : Kwargs) (hc : HookCaller).

Lemma getitem_present kwargs key :
  key ∈ dom kwargs → ∃ v, kwargs !! key = Some v ∧ getitem kwargs key = Returned v.
Proof.
  intros [v Hv]%elem_of_dom. exists v. unfold getitem. by rewrite Hv.
Qed.

Lemma dict_comprehension_spec names kwargs acc :
  dict_comprehension names kwargs acc
  = Returned (filter (λ kv, kv.1 ∈ names) kwargs ∪ acc).
Proof.
  revert acc. induction names as [|key rest IH]; intros acc; simpl.
  - f_equal. apply map_eq. intros i. apply option_eq. intros x.
    rewrite lookup_union_Some_raw, map_lookup_filter_Some, map_lookup_filter_None.
    simpl. set_solver.
  - case_bool_decide as Hin.
    + destruct (getitem_present _ _ Hin) as (v & Hv & ->).
      rewrite IH. f_equal. apply map_eq. intros i. apply option_eq. intros x.
      rewrite !lookup_union_Some_raw, !map_lookup_filter_Some,
        !map_lookup_filter_None, lookup_insert_Some. simpl.
      destruct (decide (key = i)) as [->|Hne]; [|set_solver].
      rewrite Hv. split.
      * intros [[? ?]|[_ [[_ <-]|[? _]]]]; [left | left | done];
          (split; [done | set_solver]).
      * intros [[Hx _]|[[?|Hn] _]]; [|done|].
        -- destruct (decide (i ∈ rest)); [by left|right].
           split; [by right | left; split; congruence].
        -- exfalso. eapply Hn; [done|set_solver].
    + rewrite IH. do 2 f_equal. apply map_filter_ext.
      intros i x Hx. simpl.
      assert (i ≠ key) by (intros ->; apply Hin, elem_of_dom; eauto).
      set_solver.
Qed.

Lemma call_impl_invoke impl kwargs :
  _call_impl impl kwargs = invoke impl (passed_kwargs impl kwargs).
Proof.
  unfold _call_impl, passed_kwargs. destruct (argnames impl) as [names|]; [|done].
  rewrite dict_comprehension_spec, (right_id ∅ (∪)). done.
Qed.

Lemma call_impl_unfold impl kwargs :
  _call_impl impl kwargs = ([call_of kwargs impl], answer kwargs impl).
Proof. by rewrite call_impl_invoke. Qed.

Lemma collect_loop_returned impls kwargs results outs :
  answer kwargs <$> impls = Returned <$> outs →
  collect_loop impls kwargs results
  = (call_of kwargs <$> impls,
     Returned (results ++ filter (λ o, is_not_None o) outs)).
Proof.
  revert results outs. induction impls as [|impl rest IH]; intros results outs Hout.
  - destruct outs; [|done]. simpl. by rewrite app_nil_r.
  - destruct outs as [|o outs]; [done|]. injection Hout as Ho Hrest.
    cbn [collect_loop]. rewrite call_impl_unfold, Ho.
    unfold mbind, run_bind. rewrite (IH _ outs Hrest). simpl. do 2 f_equal.
    rewrite filter_cons. destruct (is_not_None o); simpl.
    + by rewrite <- app_assoc.
    + done.
Qed.

(** A raising implementation ends the collecting loop with its exception;
    the implementations after it are not called. *)
Lemma collect_loop_raised before impl after kwargs results outs e :
  answer kwargs <$> before = Returned <$> outs →
  answer kwargs impl = Raised e →
  collect_loop (before ++ impl :: after) kwargs results
  = (call_of kwargs <$> (before ++ [impl]), Raised e).
Proof.
  revert results outs. induction before as [|b before IH]; intros results outs Hout He.
  - cbn. rewrite call_impl_unfold, He. done.
  - destruct outs as [|o outs]; [done|]. injection Hout as Ho Hrest.
    cbn [collect_loop app]. rewrite call_impl_unfold, Ho.
    unfold mbind, run_bind. by rewrite (IH _ outs Hrest He).
Qed.

Lemma firstresult_loop_found before impl after kwargs result :
  Forall (λ i, answer kwargs i = Returned PyNone) before →
  answer kwargs impl = Returned result →
  is_not_None result = true →
  firstresult_loop (before ++ impl :: after) kwargs
  = (call_of kwargs <$> (before ++ [impl]), Returned result).
Proof.
  intros Hbefore Himpl Hres. induction Hbefore as [|b before Hb _ IH].
  - cbn. rewrite call_impl_unfold, Himpl. cbn. by rewrite Hres.
  - cbn [firstresult_loop app]. rewrite call_impl_unfold, Hb.
    unfold mbind, run_bind. cbn [is_not_None]. by rewrite IH.
Qed.

Lemma firstresult_loop_none impls kwargs :
  Forall (λ i, answer kwargs i = Returned PyNone) impls →
  firstresult_loop impls kwargs = (call_of kwargs <$> impls, Returned PyNone).
Proof.
  induction 1 as [|b rest Hb _ IH]; [done|].
  cbn [firstresult_loop]. rewrite call_impl_unfold, Hb.
  unfold mbind, run_bind. cbn [is_not_None]. by rewrite IH.
Qed.

Lemma firstresult_loop_raised before impl after kwargs e :
  Forall (λ i, answer kwargs i = Returned PyNone) before →
  answer kwargs impl = Raised e →
  firstresult_loop (before ++ impl :: after) kwargs
  = (call_of kwargs <$> (before ++ [impl]), Raised e).
Proof.
  intros Hbefore Himpl. induction Hbefore as [|b before Hb _ IH].
  - cbn. by rewrite call_impl_unfold, Himpl.
  - cbn [firstresult_loop app]. rewrite call_impl_unfold, Hb.
    unfold mbind, run_bind. cbn [is_not_None]. by rewrite IH.
Qed.
End dispatch.

(** X1: when the signature inspector answers with the accept-everything
    sentinel: the signature has a [**kwargs] parameter, or there is neither
    a signature nor a code object to read. *)
Lemma get_argnames_accept_all (func : Callable) :
  _get_argnames func = None
  ↔ (∃ params, fn_signature func = Some params
               ∧ existsb is_var_keyword params = true)
    ∨ (fn_signature func = None ∧ fn_code func = None).
Proof.
  unfold _get_argnames.
  destruct (fn_signature func) as [params|]; [|destruct (fn_code func) as [code|]].
  - destruct (existsb is_var_keyword params) eqn:E; split; try done.
    + intros _. left. by exists params.
    + intros [(params' & [= <-] & E')|[? _]]; congruence.
  - split; [done|]. intros [(params' & ? & _)|[_ ?]]; done.
  - split; [|done]. intros _. by right.
Qed.

(** C5: [_call_impl] calls the function of the implementation exactly once
    and raises nothing of its own.  With the accept-everything sentinel for
    [argnames] the function is given the full keyword arguments; otherwise it
    is given the entries of [kwargs] whose key occurs in [argnames] and no
    others, a name of [argnames] that [kwargs] lacks being left out. *)
Theorem call_impl_argument_filtering (impl : HookImpl) (kwargs : Kwargs) :
  _call_impl impl kwargs = invoke impl (passed_kwargs impl kwargs) ∧
  match argnames impl with
  | None => passed_kwargs impl kwargs = kwargs
  | Some names =>
      ∀ key, passed_kwargs impl kwargs !! key
             = if bool_decide (key ∈ names) then kwargs !! key else None
  end.
Proof.
  split; [apply call_impl_invoke|].
  unfold passed_kwargs. destruct (argnames impl) as [names|]; [|done].
  intros key. apply option_eq. intros v. rewrite map_lookup_filter_Some. simpl.
  case_bool_decide; naive_solver.
Qed.

(** C1: a hook caller whose [firstresult] is false calls its implementations
    in reverse registration order, each once, and, when they return [outs]
    in that order, returns the list of the members of [outs] that are not
    [None], in that order (the empty list when there are none). *)
Theorem dispatch_collect_all_reverse_order (hc : HookCaller) (kwargs : Kwargs)
    (outs : list PyObj) :
  _firstresult hc = false →
  answer kwargs <$> reverse (_hookimpls hc) = Returned <$> outs →
  HookCaller_call hc kwargs
  = (call_of kwargs <$> reverse (_hookimpls hc),
     Returned (PyList (filter (λ o, is_not_None o) outs))).
Proof.
  intros Hfirst Houts. unfold HookCaller_call. rewrite Hfirst.
  rewrite (collect_loop_returned _ _ _ _ Houts). cbn. by rewrite app_nil_r.
Qed.

(** C2: a hook caller whose [firstresult] is true walks its implementations
    in reverse registration order and returns the result of the first one
    that does not return [None], calling none after it; when every
    implementation returns [None], or there is none, it returns [None]. *)
Theorem dispatch_firstresult (hc : HookCaller) (kwargs : Kwargs) :
  _firstresult hc = true →
  (∀ before impl after result,
     reverse (_hookimpls hc) = before ++ impl :: after →
     Forall (λ i, answer kwargs i = Returned PyNone) before →
     answer kwargs impl = Returned result →
     result ≠ PyNone →
     HookCaller_call hc kwargs
     = (call_of kwargs <$> (before ++ [impl]), Returned result))
  ∧ (Forall (λ i, answer kwargs i = Returned PyNone) (_hookimpls hc) →
     HookCaller_call hc kwargs
     = (call_of kwargs <$> reverse (_hookimpls hc), Returned PyNone)).
Proof.
  intros Hfirst. unfold HookCaller_call. rewrite Hfirst. split.
  - intros before impl after result -> Hbefore Himpl Hres.
    apply firstresult_loop_found; [done..|]. by destruct result.
  - intros Hall. apply firstresult_loop_none. by apply Forall_reverse.
Qed.

(** * The registration tables and the relay *)

Section relay.
Implicit Types (hooks : gmap string HookCaller) (hc : HookCaller)
  (p q : Plugin) (m : PluginManager) (h : string).

Lemma impls_of_insert hooks h hc h' :
  impls_of (<[h := hc]> hooks) h'
  = if decide (h = h') then _hookimpls hc else impls_of hooks h'.
Proof.
  unfold impls_of. rewrite lookup_insert. by destruct (decide (h = h')).
Qed.

Lemma impls_of_Some hooks h hc :
  hooks !! h = Some hc → impls_of hooks h = _hookimpls hc.
Proof. unfold impls_of. by intros ->. Qed.

Lemma impls_of_remove_plugin hooks p h :
  impls_of ((λ hc, _remove_plugin hc p) <$> hooks) h
  = filter (is_not_plugin p) (impls_of hooks h).
Proof.
  unfold impls_of. rewrite lookup_fmap. by destruct (hooks !! h).
Qed.

Lemma owned_app pid l1 l2 : owned pid (l1 ++ l2) = owned pid l1 ++ owned pid l2.
Proof. unfold owned. apply filter_app. Qed.

Lemma owned_nil_iff pid l :
  owned pid l = [] ↔ ∀ i, i ∈ l → py_id (plugin i) ≠ pid.
Proof.
  unfold owned. induction l as [|x l IH]; [set_solver|].
  rewrite filter_cons. destruct (decide (py_id (plugin x) = pid)) as [E|E].
  - split; [done|]. intros H. destruct (H x); [left|done].
  - rewrite IH. set_solver.
Qed.


Lemma owned_length_le pid l : length (owned pid l) ≤ length l.
Proof. apply length_filter. Qed.

Lemma owned_removed pid p l :
  length (owned pid (filter (is_not_plugin p) l)) ≤ length (owned pid l).
Proof.
  unfold owned. induction l as [|x l IH]; [done|].
  rewrite !filter_cons.
  destruct (decide (is_not_plugin p x)), (decide (py_id (plugin x) = pid));
    rewrite ?filter_cons; repeat case_decide; simpl; try done; lia.
Qed.
End relay.

(** * Further properties of the signature inspector and of dispatch *)

(** X2: with a readable signature that has no [**kwargs] parameter, the
    function of a record is called once, with exactly the keyword arguments
    whose key names a positional-or-keyword or keyword-only parameter:
    positional-only and [*args] names are never passed by keyword. *)
Theorem signature_selects_keyword_parameters (func : Callable) (p : Plugin)
    (pname : string) (params : list Param) (kwargs : Kwargs) :
  fn_signature func = Some params →
  existsb is_var_keyword params = false →
  ∃ kw,
    _call_impl (HookImpl_init func p pname) kwargs
    = invoke (HookImpl_init func p pname) kw
    ∧ ∀ key v,
        kw !! key = Some v
        ↔ kwargs !! key = Some v
          ∧ ∃ prm, prm ∈ params ∧ param_name prm = key
                   ∧ (param_kind prm = POSITIONAL_OR_KEYWORD
                      ∨ param_kind prm = KEYWORD_ONLY).
Proof.
  intros Hsig Hvar. exists (passed_kwargs (HookImpl_init func p pname) kwargs).
  split; [apply call_impl_invoke|]. intros key v.
  unfold passed_kwargs, HookImpl_init, _get_argnames. cbn [argnames].
  rewrite Hsig, Hvar, map_lookup_filter_Some. cbn [fst].
  rewrite list_elem_of_fmap. setoid_rewrite list_elem_of_filter.
  unfold passable_by_keyword. split.
  - intros [Hk (prm & -> & Hpass & Hin)]. split; [done|]. exists prm.
    split_and!; [done..|]. destruct (param_kind prm); auto; discriminate.
  - intros [Hk (prm & Hin & <- & Hkind)]. split; [done|]. exists prm.
    split_and!; [done| |done]. by destruct Hkind as [-> | ->].
Qed.

(** X3: without a readable signature but with a code object, the function of a
    record is called with the keyword arguments whose key is one of the
    first [co_argcount + co_kwonlyargcount] names of [co_varnames], whether
    or not the function would take more. *)
Theorem code_object_selects_leading_varnames (func : Callable) (p : Plugin)
    (pname : string) (code : Code) (kwargs : Kwargs) :
  fn_signature func = None →
  fn_code func = Some code →
  ∃ kw,
    _call_impl (HookImpl_init func p pname) kwargs
    = invoke (HookImpl_init func p pname) kw
    ∧ ∀ key v,
        kw !! key = Some v
        ↔ kwargs !! key = Some v
          ∧ ∃ i, co_varnames code !! i = Some key
                 ∧ i < co_argcount code + co_kwonlyargcount code.
Proof.
  intros Hsig Hcode. exists (passed_kwargs (HookImpl_init func p pname) kwargs).
  split; [apply call_impl_invoke|]. intros key v.
  unfold passed_kwargs, HookImpl_init, _get_argnames. cbn [argnames].
  rewrite Hsig, Hcode, map_lookup_filter_Some. cbn [fst].
  by rewrite elem_of_take.
Qed.

Lemma all_returned (kwargs : Kwargs) (impls : list HookImpl) :
  Forall (λ i, ∃ v, answer kwargs i = Returned v) impls →
  ∃ outs, answer kwargs <$> impls = Returned <$> outs.
Proof.
  induction 1 as [|i impls [v Hv] _ [outs IH]]; [by exists []|].
  exists (v :: outs). cbn. by rewrite Hv, IH.
Qed.

(** X4: dispatch catches nothing: when an implementation raises, after the
    ones before it in reverse registration order returned (returned [None],
    for a [firstresult] hook), the dispatch ends with that exception and the
    implementations after it are not called. *)
Theorem dispatch_propagates_exception (hc : HookCaller) (kwargs : Kwargs)
    (before after : list HookImpl) (impl : HookImpl) (e : Exn) :
  reverse (_hookimpls hc) = before ++ impl :: after →
  Forall (λ i, ∃ v, answer kwargs i = Returned v
                    ∧ (_firstresult hc = true → v = PyNone)) before →
  answer kwargs impl = Raised e →
  HookCaller_call hc kwargs = (call_of kwargs <$> (before ++ [impl]), Raised e).
Proof.
  intros Hrev Hbefore Himpl. unfold HookCaller_call. rewrite Hrev.
  destruct (_firstresult hc) eqn:Hfirst.
  - apply firstresult_loop_raised; [|done].
    eapply Forall_impl; [exact Hbefore|]. intros i (v & Hv & Hnone).
    by rewrite Hv, Hnone.
  - destruct (all_returned kwargs before) as [outs Houts].
    { eapply Forall_impl; [exact Hbefore|]. intros i (v & Hv & _). eauto. }
    by rewrite (collect_loop_raised _ _ _ _ _ outs e Houts Himpl).
Qed.

Lemma firstresult_loop_prefix (impls : list HookImpl) (kwargs : Kwargs) :
  ∃ n, (firstresult_loop impls kwargs).1 = take n (call_of kwargs <$> impls).
Proof.
  induction impls as [|impl rest [n IH]]; [by exists 0|].
  cbn [firstresult_loop]. rewrite call_impl_unfold. unfold mbind, run_bind.
  destruct (answer kwargs impl) as [result|e]; [|by exists 1].
  destruct (is_not_None result); [by exists 1|].
  exists (S n). destruct (firstresult_loop rest kwargs) as [log r].
  simpl in *. by rewrite IH.
Qed.

Lemma collect_loop_prefix (impls : list HookImpl) (kwargs : Kwargs)
    (results : list PyObj) :
  ∃ n, (collect_loop impls kwargs results).1 = take n (call_of kwargs <$> impls).
Proof.
  revert results. induction impls as [|impl rest IH]; intros results; [by exists 0|].
  cbn [collect_loop]. rewrite call_impl_unfold. unfold mbind, run_bind.
  destruct (answer kwargs impl) as [result|e]; [|by exists 1].
  destruct (IH (if is_not_None result then results ++ [result] else results))
    as [n Hn].
  exists (S n). destruct (collect_loop rest kwargs _) as [log r].
  simpl in *. by rewrite Hn.
Qed.

(** X5: whatever the implementations do, the calls of one dispatch are an
    initial stretch of the implementations in reverse registration order,
    each with the keyword arguments selected for it: no implementation is
    called twice or out of turn. *)
Theorem dispatch_calls_are_a_prefix (hc : HookCaller) (kwargs : Kwargs) :
  ∃ n, (HookCaller_call hc kwargs).1
       = take n (call_of kwargs <$> reverse (_hookimpls hc)).
Proof.
  unfold HookCaller_call. destruct (_firstresult hc).
  - apply firstresult_loop_prefix.
  - destruct (collect_loop_prefix (reverse (_hookimpls hc)) kwargs []) as [n Hn].
    exists n. unfold mbind, run_bind.
    destruct (collect_loop _ kwargs []) as [log [results|e]]; simpl in *;
      [by rewrite app_nil_r|done].
Qed.

Lemma firstresult_loop_head (impls : list HookImpl) (kwargs : Kwargs)
    (outs : list PyObj) :
  answer kwargs <$> impls = Returned <$> outs →
  (firstresult_loop impls kwargs).2
  = Returned (hd PyNone (filter (λ o, is_not_None o) outs)).
Proof.
  revert outs. induction impls as [|impl rest IH]; intros [|o outs] Hout; try done.
  injection Hout as Ho Hrest. cbn [firstresult_loop].
  rewrite call_impl_unfold, Ho. unfold mbind, run_bind. rewrite filter_cons.
  destruct (is_not_None o); simpl; [done|].
  specialize (IH outs Hrest). by destruct (firstresult_loop rest kwargs).
Qed.

(** X6: the two policies agree: when all implementations of a hook return,
    its dispatch as a [firstresult] hook gives the first element of the list
    that its dispatch as a collecting hook gives, and [None] when that list
    is empty. *)
Theorem firstresult_is_head_of_collected (hc : HookCaller) (kwargs : Kwargs)
    (outs : list PyObj) :
  answer kwargs <$> reverse (_hookimpls hc) = Returned <$> outs →
  ∃ collected,
    (HookCaller_call (set_firstresult hc false) kwargs).2
    = Returned (PyList collected)
    ∧ (HookCaller_call (set_firstresult hc true) kwargs).2
      = Returned (hd PyNone collected).
Proof.
  intros Houts. exists (filter (λ o, is_not_None o) outs). split.
  - unfold HookCaller_call. cbn [set_firstresult _firstresult _hookimpls].
    by rewrite (collect_loop_returned _ _ _ _ Houts).
  - unfold HookCaller_call. cbn [set_firstresult _firstresult _hookimpls].
    by apply firstresult_loop_head.
Qed.


(** * Loops that may raise *)

Lemma run_each_app {S A} (step : S → A → S * Outcome unit) (s : S) (l1 l2 : list A) :
  run_each step s (l1 ++ l2)
  = match run_each step s l1 with
    | (s', Returned _) => run_each step s' l2
    | (s', Raised e) => (s', Raised e)
    end.
Proof.
  revert s. induction l1 as [|a l1 IH]; intros s; [done|]. cbn [run_each app].
  destruct (step s a) as [s' [[]|e]]; [apply IH|done].
Qed.

Lemma run_each_concat {S A} (step : S → A → S * Outcome unit) (s : S)
    (ls : list (list A)) :
  run_each (λ st l, run_each step st l) s ls = run_each step s (concat ls).
Proof.
  revert s. induction ls as [|l ls IH]; intros s; [done|].
  cbn [run_each concat]. rewrite run_each_app.
  destruct (run_each step s l) as [s' [[]|e]]; [apply IH|done].
Qed.

(** A loop that raised went well over an initial stretch of its list and
    raised at the next element. *)
Lemma run_each_raised {S A} (step : S → A → S * Outcome unit) (s s' : S)
    (l : list A) (e : Exn) :
  run_each step s l = (s', Raised e) →
  ∃ pre x post s0,
    l = pre ++ x :: post
    ∧ run_each step s pre = (s0, Returned tt)
    ∧ step s0 x = (s', Raised e).
Proof.
  revert s. induction l as [|a l IH]; intros s; [done|]. cbn [run_each].
  destruct (step s a) as [s1 [[]|e1]] eqn:Hstep.
  - intros (pre & x & post & s0 & -> & Hpre & Hx)%IH.
    exists (a :: pre), x, post, s0. split; [done|]. cbn [run_each].
    by rewrite Hstep.
  - intros [= <- <-]. by exists [], a, l, s.
Qed.

Lemma run_each_returned {S A} (step : S → A → S * Outcome unit) (s s' : S)
    (l : list A) (u : unit) :
  run_each step s l = (s', Returned u) → run_each step s l = (s', Returned tt).
Proof. by destruct u. Qed.

Lemma foldl_add_hookimpl (hc : HookCaller) (added : list HookImpl) :
  foldl _add_hookimpl hc added
  = {| name := name hc; _hookimpls := _hookimpls hc ++ added;
       _firstresult := _firstresult hc |}.
Proof.
  revert hc. induction added as [|i added IH]; intros hc.
  - simpl. rewrite app_nil_r. by destruct hc.
  - simpl. rewrite IH. simpl. by rewrite <- app_assoc.
Qed.

(** * The registration walk visits each member name once *)

Section walk.
Implicit Types (hooks : gmap string HookCaller) (p : Plugin) (h : string)
  (seen : gset string) (cls : gmap string bool).

Lemma member_impls_length p pname raw :
  length (member_impls p pname raw)
  = if raw_callable raw && raw_hookimpl raw
       && match bound raw with Some _ => true | None => false end
    then 1 else 0.
Proof.
  unfold member_impls.
  by destruct (raw_callable raw), (raw_hookimpl raw), (bound raw).
Qed.

Lemma member_impls_owner p pname raw i :
  i ∈ member_impls p pname raw →
  plugin i = p ∧ plugin_name i = pname ∧ argnames i = _get_argnames (function i).
Proof.
  unfold member_impls.
  destruct (raw_callable raw && raw_hookimpl raw); [|by intros ?%elem_of_nil].
  destruct (bound raw); [|by intros ?%elem_of_nil].
  by intros ->%list_elem_of_singleton.
Qed.

Lemma plugin_impls_entries p pname h :
  plugin_impls p pname h = entries_impls p pname (concat (mro p)) h.
Proof. done. Qed.

Lemma entries_impls_length p pname entries h :
  length (entries_impls p pname entries h) ≤ 1.
Proof.
  unfold entries_impls. destruct (first_entry h entries) as [raw|]; [|simpl; lia].
  rewrite member_impls_length. destruct (_ && _); lia.
Qed.

Lemma entries_impls_owner p pname entries h i :
  i ∈ entries_impls p pname entries h →
  plugin i = p ∧ plugin_name i = pname ∧ argnames i = _get_argnames (function i).
Proof.
  unfold entries_impls.
  destruct (first_entry h entries) as [raw|]; [|by intros ?%elem_of_nil].
  apply member_impls_owner.
Qed.

Lemma plugin_impls_length p pname h :
  length (plugin_impls p pname h) = if implements p h then 1 else 0.
Proof.
  unfold plugin_impls, implements.
  destruct (first_entry h (concat (mro p))); [apply member_impls_length|done].
Qed.

Lemma plugin_impls_owner p pname h i :
  i ∈ plugin_impls p pname h → plugin i = p ∧ plugin_name i = pname.
Proof.
  rewrite plugin_impls_entries. intros Hi.
  by destruct (entries_impls_owner _ _ _ _ _ Hi) as (? & ? & _).
Qed.

Lemma first_entry_app h (walked rest : list (string * Member)) raw :
  first_entry h walked = Some raw → first_entry h (walked ++ rest) = Some raw.
Proof.
  induction walked as [|[a r] walked IH]; [done|]. cbn.
  by destruct (decide (a = h)).
Qed.

(** What a walk that stopped early contributed to a hook is nothing, or
    what the whole walk would have contributed. *)
Lemma entries_impls_prefix p pname (walked rest : list (string * Member)) h :
  entries_impls p pname walked h = []
  ∨ entries_impls p pname walked h = entries_impls p pname (walked ++ rest) h.
Proof.
  unfold entries_impls. destruct (first_entry h walked) as [raw|] eqn:Hw; [|by left].
  right. by rewrite (first_entry_app _ _ rest _ Hw).
Qed.

Lemma relay_getattr_caller cls hooks h hc :
  relay_getattr cls hooks h = AttrCaller hc → hooks !! h = Some hc.
Proof.
  unfold relay_getattr. destruct (decide _); [done|].
  destruct (cls !! h) as [[]|], (hooks !! h); naive_solver.
Qed.

Lemma relay_getattr_none cls hooks h :
  relay_getattr cls hooks h = AttrNone → hooks !! h = None.
Proof.
  unfold relay_getattr. destruct (decide _); [done|].
  destruct (cls !! h) as [[]|], (hooks !! h); naive_solver.
Qed.

Lemma relay_getattr_insert_ne cls hooks a hc h :
  a ≠ h → relay_getattr cls (<[a := hc]> hooks) h = relay_getattr cls hooks h.
Proof. intros Hne. unfold relay_getattr. by rewrite lookup_insert_ne. Qed.

Lemma blocks_insert_ne cls hooks a hc h :
  a ≠ h → blocks cls (<[a := hc]> hooks) h = blocks cls hooks h.
Proof. intros Hne. unfold blocks. by rewrite relay_getattr_insert_ne. Qed.

Lemma register_attr_seen_again cls p pname attr raw hooks seen :
  attr ∈ seen →
  register_attr cls p pname (seen, hooks) (attr, raw) = ((seen, hooks), Returned tt).
Proof. intros Hseen. unfold register_attr. by rewrite bool_decide_eq_true_2. Qed.

(** One member whose name was not seen yet: the walk raises exactly when
    the member gives a record and the relay blocks the name; otherwise the
    record, if any, is appended to the hook caller of that name. *)
Lemma register_attr_new cls p pname attr raw hooks seen :
  attr ∉ seen →
  if blocks cls hooks attr
     && bool_decide (member_impls p pname raw ≠ [])
  then register_attr cls p pname (seen, hooks) (attr, raw)
       = (({[attr]} ∪ seen, hooks), Raised (AttributeError attr))
  else ∃ hooks1,
         register_attr cls p pname (seen, hooks) (attr, raw)
         = (({[attr]} ∪ seen, hooks1), Returned tt)
         ∧ hooks1 !! attr = extend_caller attr (hooks !! attr) (member_impls p pname raw)
         ∧ ∀ h, attr ≠ h → hooks1 !! h = hooks !! h.
Proof.
  intros Hseen. unfold register_attr, member_impls, blocks.
  rewrite (bool_decide_eq_false_2 (attr ∈ seen)) by done.
  destruct (raw_callable raw), (raw_hookimpl raw); simpl;
    rewrite ?andb_false_r; try (by exists hooks).
  destruct (bound raw) as [method|]; simpl;
    [|rewrite andb_false_r; by exists hooks].
  destruct (relay_getattr cls hooks attr) as [|hc| |] eqn:Hget; simpl; try done.
  - apply relay_getattr_none in Hget. eexists. split; [done|]. rewrite Hget.
    split; [by rewrite lookup_insert_eq|]. intros h Hne. by rewrite lookup_insert_ne.
  - apply relay_getattr_caller in Hget. eexists. split; [done|]. rewrite Hget.
    split; [by rewrite lookup_insert_eq|]. intros h Hne. by rewrite lookup_insert_ne.
Qed.

Lemma register_attr_raised cls p pname st entry st' e :
  register_attr cls p pname st entry = (st', Raised e) → st'.2 = st.2.
Proof.
  destruct st as [seen hooks], entry as [attr raw].
  destruct (decide (attr ∈ seen)) as [Hin|Hin].
  { by rewrite register_attr_seen_again. }
  pose proof (register_attr_new cls p pname attr raw hooks seen Hin) as Hnew.
  destruct (_ && _); [rewrite Hnew; by intros [= <- _]|].
  destruct Hnew as (hooks1 & -> & _). done.
Qed.

(** A walk over [entries] that did not raise. *)
Lemma register_entries_lookup cls p pname entries seen hooks st' h :
  run_each (register_attr cls p pname) (seen, hooks) entries = (st', Returned tt) →
  st'.2 !! h
  = extend_caller h (hooks !! h)
      (if decide (h ∈ seen) then [] else entries_impls p pname entries h).
Proof.
  revert seen hooks. induction entries as [|[attr raw] rest IH]; intros seen hooks.
  { intros [= <-]. simpl. by destruct (decide _). }
  cbn [run_each]. unfold entries_impls. cbn [first_entry].
  destruct (decide (attr ∈ seen)) as [Hin|Hin].
  { rewrite register_attr_seen_again by done. intros Hrun%IH. rewrite Hrun.
    destruct (decide (h ∈ seen)); [done|].
    by rewrite decide_False by (intros ->; done). }
  pose proof (register_attr_new cls p pname attr raw hooks seen Hin) as Hnew.
  destruct (_ && _); [by rewrite Hnew|].
  destruct Hnew as (hooks1 & -> & Hattr & Hother). intros Hrun%IH. rewrite Hrun.
  destruct (decide (attr = h)) as [->|Hne].
  - rewrite (decide_True (P := h ∈ {[h]} ∪ seen)) by set_solver.
    rewrite (decide_False (P := h ∈ seen)) by done. by rewrite Hattr.
  - rewrite Hother by done. destruct (decide (h ∈ seen)).
    + by rewrite decide_True by set_solver.
    + by rewrite decide_False by set_solver.
Qed.

(** A walk over [entries], however it ended: it went over an initial
    stretch [walked] of them, all of them if it did not raise. *)
Lemma register_entries_walked cls p pname entries seen hooks st' r :
  run_each (register_attr cls p pname) (seen, hooks) entries = (st', r) →
  ∃ walked rest,
    entries = walked ++ rest
    ∧ (∀ u, r = Returned u → rest = [])
    ∧ ∀ h, st'.2 !! h
           = extend_caller h (hooks !! h)
               (if decide (h ∈ seen) then [] else entries_impls p pname walked h).
Proof.
  destruct r as [[]|e].
  - intros Hrun. exists entries, []. rewrite app_nil_r. split_and!; [done..|].
    intros h. by eapply register_entries_lookup.
  - intros (pre & x & post & s0 & -> & Hpre & Hx)%run_each_raised.
    exists pre, (x :: post). split_and!; [done|done|]. intros h.
    rewrite (register_attr_raised _ _ _ _ _ _ _ Hx).
    by eapply register_entries_lookup.
Qed.

(** The walk returns exactly when the relay blocks none of the names, not
    seen before, for which the entries give a record. *)
Lemma register_entries_returns cls p pname entries seen hooks :
  (∃ st', run_each (register_attr cls p pname) (seen, hooks) entries
          = (st', Returned tt))
  ↔ ∀ h, h ∉ seen → entries_impls p pname entries h ≠ [] → blocks cls hooks h = false.
Proof.
  revert seen hooks. induction entries as [|[attr raw] rest IH]; intros seen hooks.
  { split; [by intros _ h _|]. intros _. by eexists. }
  cbn [run_each]. unfold entries_impls in *. cbn [first_entry].
  destruct (decide (attr ∈ seen)) as [Hin|Hin].
  { rewrite register_attr_seen_again, IH by done. split; intros H h Hh.
    - rewrite decide_False by (intros ->; done). by apply H.
    - specialize (H h Hh). by rewrite decide_False in H by (intros ->; done). }
  pose proof (register_attr_new cls p pname attr raw hooks seen Hin) as Hnew.
  destruct (blocks cls hooks attr && _) eqn:Hb.
  { rewrite Hnew. apply andb_true_iff in Hb as [Hblocked Himpl%bool_decide_eq_true].
    split; [by intros [? ?]|]. intros H. specialize (H attr Hin).
    rewrite decide_True in H by done. rewrite H in Hblocked; done. }
  destruct Hnew as (hooks1 & -> & Hattr & Hother). rewrite IH.
  assert (∀ h, attr ≠ h → blocks cls hooks1 h = blocks cls hooks h) as Hblocks.
  { intros h Hne. unfold blocks, relay_getattr. by rewrite Hother. }
  split; intros H h Hh.
  - destruct (decide (attr = h)) as [<-|Hne].
    + intros Himpl. apply andb_false_iff in Hb as [Hb|Hb]; [done|].
      apply bool_decide_eq_false in Hb. done.
    + rewrite <- Hblocks by done. apply H. set_solver.
  - assert (attr ≠ h) as Hne by set_solver. rewrite Hblocks by done.
    specialize (H h). rewrite decide_False in H by done. apply H. set_solver.
Qed.

(** A walk that raises does so with [AttributeError] for a name, not seen
    before, for which the entries give a record and which the relay blocks. *)
Lemma register_entries_raises cls p pname entries seen hooks st' e :
  run_each (register_attr cls p pname) (seen, hooks) entries = (st', Raised e) →
  ∃ h, e = AttributeError h ∧ (h ∉ seen)
       ∧ entries_impls p pname entries h ≠ [] ∧ blocks cls hooks h = true.
Proof.
  revert seen hooks. induction entries as [|[attr raw] rest IH]; intros seen hooks.
  { done. }
  cbn [run_each]. unfold entries_impls in *. cbn [first_entry].
  destruct (decide (attr ∈ seen)) as [Hin|Hin].
  { rewrite register_attr_seen_again by done.
    intros (h & -> & Hh & Himpl & Hb)%IH. exists h.
    by rewrite decide_False by (intros ->; done). }
  pose proof (register_attr_new cls p pname attr raw hooks seen Hin) as Hnew.
  destruct (blocks cls hooks attr && _) eqn:Hb.
  { rewrite Hnew. apply andb_true_iff in Hb as [Hblocked Himpl%bool_decide_eq_true].
    intros [= _ <-]. exists attr. by rewrite decide_True by done. }
  destruct Hnew as (hooks1 & -> & Hattr & Hother).
  intros (h & -> & Hh & Himpl & Hblocked)%IH. exists h.
  assert (attr ≠ h) as Hne by set_solver.
  rewrite decide_False by done. split_and!; [done|set_solver|done|].
  rewrite <- Hblocked. unfold blocks, relay_getattr. by rewrite Hother.
Qed.

Lemma register_walk_concat cls p pname hooks :
  register_walk cls p pname hooks
  = run_each (register_attr cls p pname) (∅, hooks) (concat (mro p)).
Proof. unfold register_walk. apply run_each_concat. Qed.

(** The walk of [register] when it does not raise: with its [seen] set it
    adds to each hook what the first member of that name along the
    resolution order gives. *)
Lemma register_walk_lookup cls p pname hooks st' u h :
  register_walk cls p pname hooks = (st', Returned u) →
  st'.2 !! h = extend_caller h (hooks !! h) (plugin_impls p pname h).
Proof.
  rewrite register_walk_concat. destruct u. intros Hrun.
  rewrite (register_entries_lookup _ _ _ _ _ _ _ h Hrun).
  by rewrite decide_False by set_solver.
Qed.

(** The walk of [register], however it ended. *)
Lemma register_walk_walked cls p pname hooks :
  ∃ walked rest,
    concat (mro p) = walked ++ rest
    ∧ (∀ u, (register_walk cls p pname hooks).2 = Returned u → rest = [])
    ∧ ∀ h, (register_walk cls p pname hooks).1.2 !! h
           = extend_caller h (hooks !! h) (entries_impls p pname walked h).
Proof.
  rewrite register_walk_concat.
  destruct (run_each _ (∅, hooks) (concat (mro p))) as [st' r] eqn:Hrun.
  destruct (register_entries_walked _ _ _ _ _ _ _ _ Hrun)
    as (walked & rest & E & Hall & Hlook).
  exists walked, rest. split_and!; [done|done|]. intros h.
  rewrite Hlook. by rewrite decide_False by set_solver.
Qed.

Lemma register_walk_returns cls p pname hooks :
  (∃ u, (register_walk cls p pname hooks).2 = Returned u)
  ↔ ∀ h, implements p h = true → blocks cls hooks h = false.
Proof.
  rewrite register_walk_concat.
  pose proof (register_entries_returns cls p pname (concat (mro p)) ∅ hooks) as Hiff.
  assert (∀ h, entries_impls p pname (concat (mro p)) h ≠ [] ↔ implements p h = true)
    as Himpl.
  { intros h. pose proof (plugin_impls_length p pname h) as Hlen.
    rewrite plugin_impls_entries in Hlen.
    destruct (entries_impls p pname (concat (mro p)) h), (implements p h);
      naive_solver. }
  split.
  - intros [u Hu]. intros h Hh. apply (proj1 Hiff); [|set_solver|by apply Himpl].
    destruct (run_each _ _ _) as [st' r]. simpl in Hu. subst r. destruct u. eauto.
  - intros Hfree. destruct (proj2 Hiff) as [st' Hst'].
    + intros h _ Hh. by apply Hfree, Himpl.
    + rewrite Hst'. by exists tt.
Qed.
Lemma implements_entries p pname h :
  entries_impls p pname (concat (mro p)) h ≠ [] ↔ implements p h = true.
Proof.
  pose proof (plugin_impls_length p pname h) as Hlen.
  rewrite plugin_impls_entries in Hlen.
  destruct (entries_impls p pname (concat (mro p)) h), (implements p h);
    naive_solver.
Qed.

Lemma register_walk_raises cls p pname hooks e :
  (register_walk cls p pname hooks).2 = Raised e →
  ∃ h, e = AttributeError h ∧ implements p h = true ∧ blocks cls hooks h = true.
Proof.
  rewrite register_walk_concat.
  destruct (run_each _ (∅, hooks) (concat (mro p))) as [st' r] eqn:Hrun.
  cbn [snd]. intros ->.
  apply register_entries_raises in Hrun as (h & -> & _ & Himpl & Hb).
  exists h. split_and!; [done| |done]. by eapply implements_entries.
Qed.
End walk.

Lemma run_each_preserves {S A} (P : S → Prop) (step : S → A → S * Outcome unit)
    (l : list A) (s : S) :
  (∀ s a, P s → P (step s a).1) → P s → P (run_each step s l).1.
Proof.
  intros Hstep. revert s. induction l as [|a l IH]; intros s Hs; [done|].
  cbn [run_each]. pose proof (Hstep s a Hs) as Hs'.
  destruct (step s a) as [s' [[]|e]]; [by apply IH|done].
Qed.

(** * Every reachable manager is consistent *)

Section invariant.
Implicit Types (hooks : gmap string HookCaller) (p q : Plugin)
  (m : PluginManager) (h : string).

Lemma consistent_init pname class_attrs :
  consistent (PluginManager_init pname class_attrs).
Proof.
  split; simpl.
  - intros n q. by rewrite lookup_empty.
  - intros h i. unfold impls_of. rewrite lookup_empty. by intros ?%elem_of_nil.
  - intros h pid. unfold impls_of. rewrite lookup_empty. simpl. lia.
  - constructor.
  - intros n. rewrite lookup_empty. split; [by intros ?%elem_of_nil|by intros [? ?]].
Qed.

Lemma register_registered m p name_arg :
  py_id p ∈ dom (_plugin2name m) → register m p name_arg = (m, Returned None).
Proof. intros Hreg. unfold register. by rewrite bool_decide_eq_true_2. Qed.

Lemma register_fresh m p name_arg :
  py_id p ∉ dom (_plugin2name m) →
  register m p name_arg
  = (let pname := py_or name_arg (_canonical_name p) in
     let walk := register_walk (hook_class m) p pname (hook m) in
     ({| project_name := project_name m;
         _name2plugin := <[pname := p]> (_name2plugin m);
         _name2plugin_keys :=
           if bool_decide (pname ∈ dom (_name2plugin m)) then _name2plugin_keys m
           else _name2plugin_keys m ++ [pname];
         _plugin2name := <[py_id p := pname]> (_plugin2name m);
         _plugin_distinfo := _plugin_distinfo m;
         hook := walk.1.2;
         hook_class := hook_class m |},
      outcome_map (λ _, Some pname) walk.2)).
Proof. intros Hreg. unfold register. by rewrite bool_decide_eq_false_2. Qed.

Lemma impls_of_extend h (old : option HookCaller) (added : list HookImpl) :
  match extend_caller h old added with
  | Some hc => _hookimpls hc
  | None => []
  end
  = match old with Some hc => _hookimpls hc | None => [] end ++ added.
Proof.
  unfold extend_caller. destruct added as [|i added].
  - by rewrite app_nil_r.
  - rewrite foldl_add_hookimpl. cbn. by destruct old.
Qed.

(** The records of a hook after [register], however it ended: those that
    were there, and then at most one record of the plugin. *)
Lemma register_impls m p name_arg h :
  ∃ added,
    impls_of (hook (register m p name_arg).1) h = impls_of (hook m) h ++ added
    ∧ (∀ i, i ∈ added →
         plugin i = p ∧ plugin_name i = py_or name_arg (_canonical_name p)
         ∧ argnames i = _get_argnames (function i))
    ∧ length added ≤ 1
    ∧ (py_id p ∈ dom (_plugin2name m) → added = []).
Proof.
  destruct (decide (py_id p ∈ dom (_plugin2name m))) as [Hreg|Hreg].
  { rewrite register_registered by done. exists []. rewrite app_nil_r.
    split_and!; [done| by intros i ?%elem_of_nil | simpl; lia | done]. }
  rewrite register_fresh by done. cbn [fst hook].
  set (pname := py_or name_arg (_canonical_name p)).
  destruct (register_walk_walked (hook_class m) p pname (hook m))
    as (walked & rest & _ & _ & Hlook).
  exists (entries_impls p pname walked h). split_and!.
  - unfold impls_of. rewrite Hlook. apply impls_of_extend.
  - intros i. apply entries_impls_owner.
  - apply entries_impls_length.
  - done.
Qed.

Lemma consistent_register m p name_arg :
  consistent m → consistent (register m p name_arg).1.
Proof.
  intros [I1 I2 I3 K1 K2].
  destruct (decide (py_id p ∈ dom (_plugin2name m))) as [Hreg|Hreg].
  { by rewrite register_registered. }
  assert (∀ h, ∃ added,
            impls_of (hook (register m p name_arg).1) h = impls_of (hook m) h ++ added
            ∧ (∀ i, i ∈ added → plugin i = p) ∧ length added ≤ 1) as Himpls.
  { intros h. destruct (register_impls m p name_arg h) as (added & E & F & L & _).
    exists added. split_and!; [done| |done]. intros i Hi. by apply F. }
  revert Himpls. rewrite register_fresh by done. set (pname := py_or _ _).
  cbn [fst hook]. intros Himpls. split; simpl.
  - intros n q. rewrite lookup_insert_Some. intros [[<- <-]|[Hne Hq]].
    + by rewrite lookup_insert_eq.
    + apply I1 in Hq. rewrite lookup_insert_ne; [done|].
      intros E. apply Hreg. rewrite E. apply elem_of_dom. eauto.
  - intros h i Hi. destruct (Himpls h) as (added & E & F & _).
    rewrite E in Hi. rewrite dom_insert_L.
    apply elem_of_app in Hi as [Hi|Hi].
    + apply I2 in Hi. set_solver.
    + rewrite (F i Hi). set_solver.
  - intros h pid. destruct (Himpls h) as (added & E & F & L).
    rewrite E, owned_app, length_app.
    destruct (decide (pid = py_id p)) as [->|Hne].
    + assert (owned (py_id p) (impls_of (hook m) h) = []) as ->.
      { apply owned_nil_iff. intros i Hi E'. apply Hreg. rewrite <- E'. eauto. }
      pose proof (owned_length_le (py_id p) added). simpl. lia.
    + assert (owned pid added = []) as ->.
      { apply owned_nil_iff. intros i Hi. by rewrite (F i Hi). }
      specialize (I3 h pid). simpl. lia.
  - case_bool_decide as Hin; [done|]. apply NoDup_app. split_and!; [done| |].
    + intros n Hn ->%list_elem_of_singleton. apply Hin, elem_of_dom. by apply K2.
    + apply NoDup_singleton.
  - intros n. rewrite lookup_insert_is_Some. case_bool_decide as Hin.
    + apply elem_of_dom in Hin. rewrite K2.
      destruct (decide (pname = n)) as [<-|]; naive_solver.
    + rewrite elem_of_app, list_elem_of_singleton, K2.
      destruct (decide (pname = n)); naive_solver.
Qed.

Lemma unregister_unresolved m plugin_arg name_arg :
  resolve_plugin m plugin_arg name_arg = None →
  unregister m plugin_arg name_arg = (m, None).
Proof. intros H. unfold unregister. by rewrite H. Qed.

Lemma unregister_resolved m plugin_arg name_arg p :
  resolve_plugin m plugin_arg name_arg = Some p →
  unregister m plugin_arg name_arg
  = (let n2p :=
       match _plugin2name m !! py_id p with
       | Some pn => name_pop (_name2plugin m, _name2plugin_keys m) pn
       | None => (_name2plugin m, _name2plugin_keys m)
       end in
     let n2p :=
       match name_arg with
       | Some n =>
           if bool_decide (Some n ≠ _plugin2name m !! py_id p)
           then name_pop n2p n else n2p
       | None => n2p
       end in
     {| project_name := project_name m;
        _name2plugin := n2p.1;
        _name2plugin_keys := n2p.2;
        _plugin2name := delete (py_id p) (_plugin2name m);
        _plugin_distinfo := _plugin_distinfo m;
        hook := (λ hc, _remove_plugin hc p) <$> hook m;
        hook_class := hook_class m |},
     Some p).
Proof. intros H. unfold unregister. by rewrite H. Qed.

Lemma name_pop_lookup (d : gmap string Plugin * list string) key n q :
  (name_pop d key).1 !! n = Some q ↔ key ≠ n ∧ d.1 !! n = Some q.
Proof. unfold name_pop. cbn. apply lookup_delete_Some. Qed.

Lemma name_pop_keys (d : gmap string Plugin * list string) key :
  NoDup d.2 ∧ (∀ n, n ∈ d.2 ↔ is_Some (d.1 !! n)) →
  NoDup (name_pop d key).2
  ∧ ∀ n, n ∈ (name_pop d key).2 ↔ is_Some ((name_pop d key).1 !! n).
Proof.
  intros [Hnodup Hkeys]. unfold name_pop. cbn. split; [by apply NoDup_filter|].
  intros n. rewrite list_elem_of_filter, lookup_delete_is_Some, Hkeys. naive_solver.
Qed.

(** The name table of [unregister], with its keys, before the second pop
    and after it. *)
Lemma unregister_names m plugin_arg name_arg :
  (∀ n q, _name2plugin (unregister m plugin_arg name_arg).1 !! n = Some q →
          _name2plugin m !! n = Some q)
  ∧ (NoDup (_name2plugin_keys m)
     ∧ (∀ n, n ∈ _name2plugin_keys m ↔ is_Some (_name2plugin m !! n)) →
     NoDup (_name2plugin_keys (unregister m plugin_arg name_arg).1)
     ∧ ∀ n, n ∈ _name2plugin_keys (unregister m plugin_arg name_arg).1
            ↔ is_Some (_name2plugin (unregister m plugin_arg name_arg).1 !! n)).
Proof.
  unfold unregister. destruct (resolve_plugin m plugin_arg name_arg) as [p|]; [|done].
  cbn [fst _name2plugin _name2plugin_keys].
  set (d0 := (_name2plugin m, _name2plugin_keys m)).
  set (d1 := match _plugin2name m !! py_id p with
             | Some pn => name_pop d0 pn
             | None => d0
             end).
  set (d2 := match name_arg with
             | Some n => if bool_decide (Some n ≠ _plugin2name m !! py_id p)
                         then name_pop d1 n else d1
             | None => d1
             end).
  assert ((∀ n q, d1.1 !! n = Some q → d0.1 !! n = Some q)
          ∧ (NoDup d0.2 ∧ (∀ n, n ∈ d0.2 ↔ is_Some (d0.1 !! n)) →
             NoDup d1.2 ∧ ∀ n, n ∈ d1.2 ↔ is_Some (d1.1 !! n))) as [S1 K1].
  { unfold d1. destruct (_plugin2name m !! py_id p); [|done]. split.
    - intros n q. rewrite name_pop_lookup. naive_solver.
    - apply name_pop_keys. }
  assert ((∀ n q, d2.1 !! n = Some q → d1.1 !! n = Some q)
          ∧ (NoDup d1.2 ∧ (∀ n, n ∈ d1.2 ↔ is_Some (d1.1 !! n)) →
             NoDup d2.2 ∧ ∀ n, n ∈ d2.2 ↔ is_Some (d2.1 !! n))) as [S2 K2].
  { unfold d2. destruct name_arg; [|done]. case_bool_decide; [|done]. split.
    - intros n q. rewrite name_pop_lookup. naive_solver.
    - apply name_pop_keys. }
  split; [naive_solver|]. intros HK. by apply K2, K1.
Qed.

Lemma consistent_unregister m plugin_arg name_arg :
  consistent m → consistent (unregister m plugin_arg name_arg).1.
Proof.
  intros Hm. destruct (unregister_names m plugin_arg name_arg) as [Hsub Hkeys].
  destruct Hm as [I1 I2 I3 K1 K2]. specialize (Hkeys (conj K1 K2)).
  revert Hsub Hkeys. unfold unregister.
  destruct (resolve_plugin m plugin_arg name_arg) as [p|]; [|by split].
  cbn [fst]. intros Hsub [Hk1 Hk2]. split; [| | |done|done].
  - intros n q Hq. pose proof (Hsub n q Hq) as Hq'. apply I1 in Hq'.
    cbn [_plugin2name]. rewrite lookup_delete_ne; [done|]. intros E.
    rewrite <- E in Hq'. revert Hq. cbn [_name2plugin]. rewrite Hq'.
    destruct name_arg as [na|]; repeat case_bool_decide;
      rewrite ?name_pop_lookup; cbn; rewrite ?lookup_delete_Some; naive_solver.
  - intros h i. cbn. rewrite impls_of_remove_plugin, list_elem_of_filter.
    intros [Hne Hi]. apply I2 in Hi. rewrite dom_delete_L.
    unfold is_not_plugin in Hne. set_solver.
  - intros h pid. cbn. rewrite impls_of_remove_plugin.
    pose proof (owned_removed pid p (impls_of (hook m) h)).
    specialize (I3 h pid). lia.
Qed.

Lemma add_hookspec_attr_impls (st : gmap string HookCaller * gmap string bool)
    entry h :
  impls_of (add_hookspec_attr st entry).1.1 h = impls_of st.1 h.
Proof.
  destruct st as [hooks cls], entry as [attr [[[opts|]]|]]; simpl; try done.
  destruct (relay_getattr cls hooks attr) as [|hc| |] eqn:Hget; simpl; try done.
  - apply relay_getattr_none in Hget. rewrite impls_of_insert.
    case_decide as E; [|done]. subst. unfold impls_of. by rewrite Hget.
  - apply relay_getattr_caller in Hget. rewrite impls_of_insert.
    case_decide as E; [|done]. subst. unfold impls_of. by rewrite Hget.
Qed.

Lemma add_hookspecs_impls m spec_class h :
  impls_of (hook (add_hookspecs m spec_class).1) h = impls_of (hook m) h.
Proof.
  unfold add_hookspecs. cbn [fst hook].
  apply (run_each_preserves
           (λ st, impls_of st.1 h = impls_of (hook m) h) add_hookspec_attr);
    [|done].
  intros st entry Hst. by rewrite add_hookspec_attr_impls.
Qed.

Lemma consistent_add_hookspecs m spec_class :
  consistent m → consistent (add_hookspecs m spec_class).1.
Proof.
  intros [I1 I2 I3 K1 K2]. split; [done| | |done|done].
  - intros h i. rewrite add_hookspecs_impls. apply I2.
  - intros h pid. rewrite add_hookspecs_impls. apply I3.
Qed.

Lemma consistent_append_distinfo m entry :
  consistent m → consistent (append_distinfo m entry).
Proof. intros [I1 I2 I3 K1 K2]. by split. Qed.

Lemma consistent_load_entry_point group dist st ep :
  consistent st.1 → consistent (load_entry_point group dist st ep).1.1.
Proof.
  destruct st as [m count]. simpl. intros Hm. unfold load_entry_point.
  repeat case_bool_decide; try done. destruct (ep_load ep) as [p|]; [|done].
  pose proof (consistent_register m p (Some (ep_name ep)) Hm) as Hreg.
  destruct (register m p (Some (ep_name ep))) as [m1 [r|e]]; [|done].
  by apply consistent_append_distinfo.
Qed.

Lemma consistent_load m group distributions :
  consistent m → consistent (load_setuptools_entrypoints m group distributions).1.
Proof.
  unfold load_setuptools_entrypoints. cbn [fst]. intros Hm.
  apply (run_each_preserves (λ st : PluginManager * nat, consistent st.1)); [|done].
  intros st dist Hst.
  apply (run_each_preserves (λ st : PluginManager * nat, consistent st.1)); [|done].
  intros st' ep. apply consistent_load_entry_point.
Qed.

Lemma reachable_consistent m : reachable m → consistent m.
Proof.
  induction 1; eauto using consistent_init, consistent_register,
    consistent_unregister, consistent_add_hookspecs, consistent_load.
Qed.
End invariant.

(** * Registering and unregistering *)

Section lifecycle.
Implicit Types (hooks : gmap string HookCaller) (hc : HookCaller)
  (p q a b : Plugin) (m : PluginManager) (h : string).

Lemma is_registered_true m p :
  is_registered m p = true ↔ py_id p ∈ dom (_plugin2name m).
Proof. unfold is_registered. apply bool_decide_eq_true. Qed.

Lemma is_registered_false m p :
  is_registered m p = false ↔ _plugin2name m !! py_id p = None.
Proof.
  unfold is_registered. rewrite bool_decide_eq_false. apply not_elem_of_dom.
Qed.

Lemma remove_plugin_absent hc p :
  (∀ i, i ∈ _hookimpls hc → py_id (plugin i) ≠ py_id p) →
  _remove_plugin hc p = hc.
Proof.
  destruct hc as [n impls f]. unfold _remove_plugin. simpl. intros Habs. f_equal.
  induction impls as [|i impls IH]; [done|].
  rewrite filter_cons_True by (apply Habs; left).
  f_equal. apply IH. intros j Hj. apply Habs. by right.
Qed.

Lemma remove_unregistered_plugin m p :
  consistent m → _plugin2name m !! py_id p = None →
  (λ hc, _remove_plugin hc p) <$> hook m = hook m.
Proof.
  intros [_ I2 _ _ _] Hp. apply map_eq. intros h. rewrite lookup_fmap.
  destruct (hook m !! h) as [hc|] eqn:Hh; [|done]. simpl. f_equal.
  apply remove_plugin_absent. intros i Hi E.
  assert (py_id (plugin i) ∈ dom (_plugin2name m)) as Hdom.
  { apply (I2 h). by rewrite (impls_of_Some _ _ _ Hh). }
  rewrite E in Hdom. by apply not_elem_of_dom in Hdom.
Qed.

Lemma filter_ne_absent (keys : list string) (key : string) :
  key ∉ keys → filter (λ k, k ≠ key) keys = keys.
Proof.
  induction keys as [|k keys IH]; [done|]. intros [Hne Hin]%not_elem_of_cons.
  rewrite filter_cons_True by done. f_equal. by apply IH.
Qed.

Lemma name_pop_absent (d : gmap string Plugin * list string) (key : string) :
  d.1 !! key = None → (∀ n, n ∈ d.2 → is_Some (d.1 !! n)) → name_pop d key = d.
Proof.
  destruct d as [t keys]. unfold name_pop. simpl. intros Hkey Hbound. f_equal.
  - by apply delete_id.
  - induction keys as [|k keys IH]; [done|].
    rewrite filter_cons_True.
    + f_equal. apply IH. intros n Hn. apply Hbound. by right.
    + intros ->. destruct (Hbound key) as [q Hq]; [left|]. congruence.
Qed.

Lemma unregister_object_unregistered m p :
  consistent m → _plugin2name m !! py_id p = None →
  unregister m (Some p) None = (m, Some p).
Proof.
  intros Hm Hp. rewrite (unregister_resolved _ _ _ p) by done.
  rewrite Hp. cbn zeta. cbn [fst snd].
  rewrite remove_unregistered_plugin, (delete_id _ _ Hp) by done. by destruct m.
Qed.

Lemma register_dom m p name_arg :
  dom (_plugin2name (register m p name_arg).1) = {[py_id p]} ∪ dom (_plugin2name m).
Proof.
  unfold register. case_bool_decide; cbn [fst _plugin2name].
  - set_solver.
  - by rewrite dom_insert_L.
Qed.

Lemma register_lookup_other m p name_arg pid :
  pid ≠ py_id p →
  _plugin2name (register m p name_arg).1 !! pid = _plugin2name m !! pid.
Proof.
  intros Hne. unfold register. case_bool_decide; cbn [fst _plugin2name]; [done|].
  by rewrite lookup_insert_ne.
Qed.

Lemma register_returned_lookup m p name_arg r h :
  py_id p ∉ dom (_plugin2name m) →
  (register m p name_arg).2 = Returned r →
  hook (register m p name_arg).1 !! h
  = extend_caller h (hook m !! h)
      (plugin_impls p (py_or name_arg (_canonical_name p)) h).
Proof.
  intros Hfresh. rewrite register_fresh by done. cbn [fst snd hook].
  destruct (register_walk _ _ _ _) as [st' [u|e]] eqn:Hwalk; [|done].
  intros _. cbn [fst]. by eapply register_walk_lookup.
Qed.

Lemma register_returned_impls m p name_arg r h :
  py_id p ∉ dom (_plugin2name m) →
  (register m p name_arg).2 = Returned r →
  impls_of (hook (register m p name_arg).1) h
  = impls_of (hook m) h ++ plugin_impls p (py_or name_arg (_canonical_name p)) h.
Proof.
  intros Hfresh Hret. unfold impls_of at 1.
  rewrite (register_returned_lookup _ _ _ r) by done. apply impls_of_extend.
Qed.



Lemma owned_other (pid : positive) p (l : list HookImpl) :
  pid ≠ py_id p → owned pid (filter (is_not_plugin p) l) = owned pid l.
Proof.
  intros Hne. unfold owned. rewrite list_filter_filter. apply list_filter_iff.
  intros x. unfold is_not_plugin. split; [tauto|]. intros E. split; congruence.
Qed.

Lemma owned_self p (l : list HookImpl) :
  owned (py_id p) (filter (is_not_plugin p) l) = [].
Proof.
  apply owned_nil_iff. intros i [Hi _]%list_elem_of_filter. exact Hi.
Qed.

Lemma not_elem_of_list_name_plugin m n :
  _name2plugin m !! n = None → ∀ q, (n, q) ∉ list_name_plugin m.
Proof.
  intros Hn q (k & _ & Hk)%list_elem_of_omap.
  destruct (_name2plugin m !! k) eqn:E; simplify_eq/=.
Qed.
End lifecycle.

(** C3, as the code has it: when the plugin object given to [unregister],
    if any, is not registered and the name given, if any, is not bound in
    the name table, [unregister] leaves the tables and every hook caller as
    they are; it returns [None] when no plugin object was given, and the
    plugin object it was given otherwise. *)
Theorem unregister_unknown_leaves_manager (m : PluginManager)
    (plugin_arg : option Plugin) (name_arg : option string) :
  reachable m →
  match plugin_arg with
  | Some p => is_registered m p = false
  | None => True
  end →
  match name_arg with
  | Some n => _name2plugin m !! n = None
  | None => True
  end →
  unregister m plugin_arg name_arg = (m, plugin_arg).
Proof.
  intros Hm%reachable_consistent Hplugin Hname.
  destruct plugin_arg as [p|].
  - apply is_registered_false in Hplugin.
    rewrite (unregister_resolved _ _ _ p) by by destruct name_arg.
    rewrite Hplugin, remove_unregistered_plugin, (delete_id _ _ Hplugin) by done.
    destruct name_arg as [n|]; cbn zeta.
    + rewrite bool_decide_eq_true_2 by done.
      rewrite name_pop_absent; [by destruct m|done|].
      intros k Hk. by apply (keys_bound m Hm).
    + by destruct m.
  - apply unregister_unresolved. by destruct name_arg.
Qed.


(** C6: unregistering a registered plugin, found by object or by name,
    returns that plugin object, removes its identity from the identity
    table and leaves no name bound to it, leaves every other identity as it
    was, and turns the records of every hook caller into those that do not
    belong to the plugin, in their former order.  The list of distribution
    entries is not touched. *)
Theorem unregister_removes_plugin (m m' : PluginManager)
    (plugin_arg : option Plugin) (name_arg : option string)
    (p : Plugin) (r : option Plugin) :
  reachable m →
  resolve_plugin m plugin_arg name_arg = Some p →
  is_registered m p = true →
  unregister m plugin_arg name_arg = (m', r) →
  r = Some p
  ∧ is_registered m' p = false
  ∧ (∀ n q, _name2plugin m' !! n = Some q → py_id q ≠ py_id p)
  ∧ (∀ pid, pid ≠ py_id p → _plugin2name m' !! pid = _plugin2name m !! pid)
  ∧ (∀ h, hook m' !! h = (λ hc, _remove_plugin hc p) <$> hook m !! h)
  ∧ (∀ h, impls_of (hook m') h = filter (is_not_plugin p) (impls_of (hook m) h))
  ∧ _plugin_distinfo m' = _plugin_distinfo m.
Proof.
  intros Hm Hres Hreg Hun.
  pose proof (consistent_unregister m plugin_arg name_arg
                (reachable_consistent m Hm)) as [I1 _ _ _ _].
  rewrite Hun in I1. rewrite (unregister_resolved _ _ _ p Hres) in Hun.
  injection Hun as <- <-. cbn [_plugin2name hook _plugin_distinfo] in *.
  split_and!.
  - done.
  - apply is_registered_false. cbn. apply lookup_delete_eq.
  - intros n q Hq E. apply I1 in Hq. cbn in Hq. rewrite E, lookup_delete_eq in Hq. done.
  - intros pid Hne. by rewrite lookup_delete_ne.
  - intros h. by rewrite lookup_fmap.
  - intros h. apply impls_of_remove_plugin.
  - done.
Qed.

(** C10: with [a] registered under [na] and [b] under [nb], two different
    names, [unregister] given the object [a] and the name [nb] unregisters
    [a]: it returns [a], [a] is not registered any more, its name [na] is
    bound no more and no hook holds a record of [a], the records of every
    hook being the former ones without those of [a].  It also drops the
    binding of [nb]: [b] stays registered by identity and keeps its
    records, but neither the name table nor [list_name_plugin] has [nb] any
    more. *)
Theorem unregister_object_and_other_name (m m' : PluginManager) (a b : Plugin)
    (na nb : string) (r : option Plugin) :
  _plugin2name m !! py_id a = Some na →
  _plugin2name m !! py_id b = Some nb →
  _name2plugin m !! nb = Some b →
  na ≠ nb →
  unregister m (Some a) (Some nb) = (m', r) →
  r = Some a
  ∧ is_registered m' a = false
  ∧ _name2plugin m' !! na = None
  ∧ (∀ q, (na, q) ∉ list_name_plugin m')
  ∧ (∀ h, impls_of (hook m') h = filter (is_not_plugin a) (impls_of (hook m) h))
  ∧ (∀ h, owned (py_id a) (impls_of (hook m') h) = [])
  ∧ is_registered m' b = true
  ∧ _plugin2name m' !! py_id b = Some nb
  ∧ _name2plugin m' !! nb = None
  ∧ (∀ q, (nb, q) ∉ list_name_plugin m')
  ∧ (∀ h, owned (py_id b) (impls_of (hook m') h)
          = owned (py_id b) (impls_of (hook m) h)).
Proof.
  intros Ha Hb Hnb Hne Hun.
  assert (py_id b ≠ py_id a) as Hid by (intros E; rewrite E in Hb; congruence).
  rewrite (unregister_resolved _ _ _ a) in Hun by done.
  rewrite Ha in Hun. rewrite bool_decide_eq_true_2 in Hun by congruence.
  injection Hun as <- <-.
  assert (delete nb (delete na (_name2plugin m)) !! nb = None) as Hgone
    by apply lookup_delete_eq.
  assert (delete nb (delete na (_name2plugin m)) !! na = None) as Hgone_a.
  { rewrite lookup_delete_ne by done. apply lookup_delete_eq. }
  split_and!.
  - done.
  - apply is_registered_false. cbn. apply lookup_delete_eq.
  - done.
  - by apply not_elem_of_list_name_plugin.
  - intros h. cbn [hook]. apply impls_of_remove_plugin.
  - intros h. cbn [hook]. rewrite impls_of_remove_plugin. apply owned_self.
  - apply is_registered_true. cbn. apply elem_of_dom.
    rewrite lookup_delete_ne by done. eauto.
  - cbn. by rewrite lookup_delete_ne.
  - done.
  - by apply not_elem_of_list_name_plugin.
  - intros h. cbn [hook]. rewrite impls_of_remove_plugin. by apply owned_other.
Qed.

(** * Declaring hook specifications *)

Section specs.
Implicit Types (st t : gmap string HookCaller * gmap string bool)
  (entry : string * option SpecMethod)
  (l spec_class : list (string * option SpecMethod))
  (m : PluginManager) (h attr : string).

Lemma add_hookspec_attr_returned st entry st' u :
  add_hookspec_attr st entry = (st', Returned u) → st' = declare_attr st entry.
Proof.
  destruct st as [hooks cls], entry as [attr [[[opts|]]|]];
    unfold add_hookspec_attr, declare_attr, spec_firstresult, relay_getattr;
    cbn [_jac_hookspec fst snd]; try congruence.
  destruct (decide (attr = "__class__"%string)); [congruence|].
  destruct (cls !! attr) as [[]|], (hooks !! attr); simpl; congruence.
Qed.

Lemma add_hookspec_attr_raised st entry st' e :
  add_hookspec_attr st entry = (st', Raised e) →
  st' = st ∧ e = AttributeError entry.1
  ∧ is_Some (spec_firstresult entry.2)
  ∧ entry.1 ≠ "__class__"%string
  ∧ blocks st.2 st.1 entry.1 = true.
Proof.
  destruct st as [hooks cls], entry as [attr [[[opts|]]|]];
    unfold add_hookspec_attr, spec_firstresult, blocks, relay_getattr;
    cbn [_jac_hookspec fst snd]; try congruence.
  destruct (decide (attr = "__class__"%string)); [congruence|].
  destruct (cls !! attr) as [[]|], (hooks !! attr); simpl; try congruence;
    intros [= <- <-]; eauto.
Qed.

Lemma add_hookspec_attr_declared st attr method st' u :
  add_hookspec_attr st (attr, method) = (st', Returned u) →
  is_Some (spec_firstresult method) → attr ≠ "__class__"%string →
  declared st' attr.
Proof.
  destruct st as [hooks cls], method as [[[opts|]]|];
    unfold add_hookspec_attr, spec_firstresult, relay_getattr, declared;
    cbn [_jac_hookspec fst snd]; try by intros _ [? [=]].
  intros Hstep _ Hne. rewrite decide_False in Hstep by done.
  destruct (cls !! attr) as [[]|] eqn:Hcls, (hooks !! attr); simpl in Hstep;
    try congruence; injection Hstep as <- _; cbn [fst snd];
    rewrite lookup_insert_eq, Hcls; split; eauto; congruence.
Qed.

Lemma add_hookspec_attr_ready st attr method :
  (is_Some (spec_firstresult method) → attr ≠ "__class__"%string →
   declared st attr) →
  add_hookspec_attr st (attr, method)
  = (declare_attr st (attr, method), Returned tt).
Proof.
  destruct st as [hooks cls], method as [[[opts|]]|];
    unfold add_hookspec_attr, declare_attr, spec_firstresult, relay_getattr, declared;
    cbn [_jac_hookspec fst snd]; try done.
  intros Hready. destruct (decide (attr = "__class__"%string)); [done|].
  destruct Hready as [[hc Hhc] Hcls]; [by eauto|done|].
  rewrite Hhc. by destruct (cls !! attr) as [[]|].
Qed.

Lemma declare_attr_declared st entry h :
  declared st h → declared (declare_attr st entry) h.
Proof.
  destruct st as [hooks cls], entry as [attr method].
  unfold declare_attr, declared. cbn [fst snd].
  destruct (spec_firstresult method) as [fr|]; [|done].
  destruct (decide (attr = "__class__"%string)); cbn [fst snd].
  - intros [? Hcls]. split; [done|].
    destruct (decide ("_firstresult"%string = h)) as [<-|].
    + by rewrite lookup_insert_eq.
    + by rewrite lookup_insert_ne.
  - intros [? Hcls]. split; [|done].
    destruct (decide (attr = h)) as [<-|].
    + rewrite lookup_insert_eq. eauto.
    + by rewrite lookup_insert_ne.
Qed.

Lemma foldl_declare_attr_declared l st h :
  declared st h → declared (foldl declare_attr st l) h.
Proof.
  revert st. induction l as [|entry l IH]; intros st Hst; [done|].
  cbn [foldl]. by apply IH, declare_attr_declared.
Qed.

Lemma add_hookspecs_run_returned l st st' u :
  run_each add_hookspec_attr st l = (st', Returned u) →
  st' = foldl declare_attr st l.
Proof.
  revert st. induction l as [|entry l IH]; intros st; cbn [run_each foldl].
  - congruence.
  - destruct (add_hookspec_attr st entry) as [s1 [u1|e1]] eqn:Hstep; [|done].
    intros Hrun. apply add_hookspec_attr_returned in Hstep as ->. by apply IH.
Qed.

Lemma add_hookspecs_run_prefix l st :
  ∃ pre post,
    l = pre ++ post
    ∧ (run_each add_hookspec_attr st l).1 = foldl declare_attr st pre
    ∧ (∀ u, (run_each add_hookspec_attr st l).2 = Returned u → post = []).
Proof.
  destruct (run_each add_hookspec_attr st l) as [st' [u|e]] eqn:Hrun.
  - exists l, []. rewrite (right_id_L [] (++)). split_and!; [done| |done].
    by eapply add_hookspecs_run_returned.
  - apply run_each_raised in Hrun as (pre & x & post & s0 & -> & Hpre & Hx).
    exists pre, (x :: post). split_and!; [done| |done].
    apply add_hookspec_attr_raised in Hx as [-> _].
    by eapply add_hookspecs_run_returned.
Qed.

Lemma add_hookspecs_run_ready l st :
  (∀ attr method, (attr, method) ∈ l → is_Some (spec_firstresult method) →
     attr ≠ "__class__"%string → declared st attr) →
  run_each add_hookspec_attr st l = (foldl declare_attr st l, Returned tt).
Proof.
  revert st. induction l as [|[attr method] l IH]; intros st Hready; [done|].
  cbn [run_each foldl]. rewrite add_hookspec_attr_ready.
  - apply IH. intros a mth Hin Hmarked Hne. apply declare_attr_declared.
    apply (Hready a mth); [by right|done..].
  - apply Hready. by left.
Qed.

Lemma add_hookspecs_run_settles l st st' u :
  run_each add_hookspec_attr st l = (st', Returned u) →
  ∀ attr method, (attr, method) ∈ l → is_Some (spec_firstresult method) →
    attr ≠ "__class__"%string → declared st' attr.
Proof.
  revert st. induction l as [|entry l IH]; intros st Hrun attr method Hin Hmarked Hne.
  { by apply elem_of_nil in Hin. }
  cbn [run_each] in Hrun.
  destruct (add_hookspec_attr st entry) as [s1 [u1|e1]] eqn:Hstep; [|done].
  apply elem_of_cons in Hin as [<-|Hin]; [|by eapply IH].
  apply add_hookspecs_run_returned in Hrun as ->.
  apply foldl_declare_attr_declared. by eapply add_hookspec_attr_declared.
Qed.

Lemma declare_attr_lookup st attr method h :
  (declare_attr st (attr, method)).1 !! h
  = if decide (attr = h) then
      if decide (attr = "__class__"%string) then st.1 !! h
      else match spec_firstresult method with
           | Some firstresult => Some (declare_caller h (st.1 !! h) firstresult)
           | None => st.1 !! h
           end
    else st.1 !! h.
Proof.
  unfold declare_attr. cbn [fst snd].
  destruct (spec_firstresult method) as [fr|];
    [|by repeat case_decide].
  destruct (decide (attr = "__class__"%string)); cbn [fst];
    [by case_decide|].
  destruct (decide (attr = h)) as [->|Hne].
  - by rewrite lookup_insert_eq.
  - by rewrite lookup_insert_ne.
Qed.

Lemma declare_caller_twice h (old : option HookCaller) (f0 f : bool) :
  declare_caller h (Some (declare_caller h old f0)) f = declare_caller h old f.
Proof. by destruct old. Qed.

Lemma foldl_declare_attr_lookup l st h :
  (foldl declare_attr st l).1 !! h
  = match declared_policy h l with
    | Some firstresult => Some (declare_caller h (st.1 !! h) firstresult)
    | None => st.1 !! h
    end.
Proof.
  revert st. induction l as [|[attr method] l IH]; intros st; [done|].
  cbn [foldl declared_policy]. rewrite IH, declare_attr_lookup.
  destruct (declared_policy h l) as [f|], (decide (attr = h)) as [->|Hne];
    try done;
    destruct (decide (h = "__class__"%string)); try done.
  destruct (spec_firstresult method) as [f0|]; [|done].
  by rewrite declare_caller_twice.
Qed.

Lemma declares_class_cons attr method l :
  declares_class ((attr, method) :: l)
  = bool_decide (attr = "__class__"%string)
    && bool_decide (is_Some (spec_firstresult method))
    || declares_class l.
Proof. done. Qed.

Lemma foldl_declare_attr_cls l st :
  (foldl declare_attr st l).2
  = if declares_class l then <["_firstresult"%string := false]> st.2 else st.2.
Proof.
  revert st. induction l as [|[attr method] l IH]; intros st; [done|].
  cbn [foldl]. rewrite declares_class_cons, IH.
  unfold declare_attr. cbn [fst snd].
  destruct (spec_firstresult method) as [fr|].
  - rewrite (bool_decide_eq_true_2 (is_Some (Some fr))) by eauto.
    destruct (decide (attr = "__class__"%string)) as [->|Hne]; cbn [snd].
    + rewrite bool_decide_eq_true_2 by done. cbn [andb orb].
      destruct (declares_class l); [|done]. apply insert_insert_eq.
    + rewrite bool_decide_eq_false_2 by done. done.
  - rewrite (bool_decide_eq_false_2 (is_Some None)) by (by intros [? [=]]).
    by rewrite andb_false_r.
Qed.

Lemma foldl_declare_attr_twice l st :
  foldl declare_attr (foldl declare_attr st l) l = foldl declare_attr st l.
Proof.
  apply injective_projections.
  - apply map_eq. intros h. rewrite !foldl_declare_attr_lookup.
    destruct (declared_policy h l) as [f|]; [|done].
    by rewrite declare_caller_twice.
  - rewrite !foldl_declare_attr_cls. destruct (declares_class l); [|done].
    apply insert_insert_eq.
Qed.

Lemma add_hookspecs_run_twice l st :
  run_each add_hookspec_attr (run_each add_hookspec_attr st l).1 l
  = run_each add_hookspec_attr st l.
Proof.
  destruct (run_each add_hookspec_attr st l) as [st' [[]|e]] eqn:Hrun; cbn [fst].
  - rewrite add_hookspecs_run_ready by by eapply add_hookspecs_run_settles.
    apply add_hookspecs_run_returned in Hrun as ->.
    by rewrite foldl_declare_attr_twice.
  - apply run_each_raised in Hrun as (pre & x & post & s0 & -> & Hpre & Hx).
    pose proof Hx as [-> _]%add_hookspec_attr_raised.
    rewrite run_each_app.
    rewrite add_hookspecs_run_ready by by eapply add_hookspecs_run_settles.
    apply add_hookspecs_run_returned in Hpre as Hs0.
    rewrite Hs0 at 1. rewrite foldl_declare_attr_twice, <- Hs0.
    cbn [run_each]. by rewrite Hx.
Qed.

Lemma declared_policy_None h l :
  (∀ method, (h, method) ∈ l → spec_firstresult method = None) →
  declared_policy h l = None.
Proof.
  induction l as [|[attr method] l IH]; intros Hnone; [done|].
  cbn [declared_policy]. rewrite IH by (intros ? ?; apply Hnone; by right).
  destruct (decide (attr = h)) as [->|]; [|done].
  destruct (decide (h = "__class__"%string)); [done|]. apply Hnone. by left.
Qed.


Lemma add_hookspecs_hook_prefix m spec_class :
  ∃ pre post,
    spec_class = pre ++ post
    ∧ hook (add_hookspecs m spec_class).1
      = (foldl declare_attr (hook m, hook_class m) pre).1
    ∧ hook_class (add_hookspecs m spec_class).1
      = (foldl declare_attr (hook m, hook_class m) pre).2
    ∧ (∀ u, (add_hookspecs m spec_class).2 = Returned u → post = []).
Proof.
  destruct (add_hookspecs_run_prefix spec_class (hook m, hook_class m))
    as (pre & post & -> & Hst & Hret).
  exists pre, post. unfold add_hookspecs. cbn [fst snd hook hook_class].
  rewrite Hst. done.
Qed.
End specs.


(** C8, as the code has it: in every manager that the operations can
    produce, each name bound in the name table is bound to a plugin whose
    identity the identity table maps back to that name, so no plugin is
    bound under two names, and no hook holds more than one record of a
    plugin. *)
Theorem reachable_tables_invariant (m : PluginManager) :
  reachable m →
  (∀ n q, _name2plugin m !! n = Some q → _plugin2name m !! py_id q = Some n)
  ∧ (∀ n1 n2 q1 q2,
       _name2plugin m !! n1 = Some q1 → _name2plugin m !! n2 = Some q2 →
       py_id q1 = py_id q2 → n1 = n2)
  ∧ (∀ h pid, length (owned pid (impls_of (hook m) h)) ≤ 1).
Proof.
  intros [I1 _ I3 _ _]%reachable_consistent. split_and!; [done| |done].
  intros n1 n2 q1 q2 H1%I1 H2%I1 E. rewrite E in H1. congruence.
Qed.

(** * Loading entry points *)

Lemma run_each_fmap {S A B} (step : S → B → S * Outcome unit) (f : A → B)
    (s : S) (l : list A) :
  run_each step s (f <$> l) = run_each (λ s a, step s (f a)) s l.
Proof.
  revert s. induction l as [|a l IH]; intros s; [done|].
  rewrite fmap_cons. cbn [run_each]. destruct (step s (f a)) as [s1 [u|e]]; [|done].
  apply IH.
Qed.

Lemma run_each_nested {S A B} (f : A → S → B → S * Outcome unit) (g : A → list B)
    (s : S) (ds : list A) :
  run_each (λ st d, run_each (f d) st (g d)) s ds
  = run_each (λ st x, f x.1 st x.2) s (ds ≫= λ d, pair d <$> g d).
Proof.
  revert s. induction ds as [|d ds IH]; intros s; [done|].
  rewrite bind_cons, run_each_app, run_each_fmap. cbn [run_each fst snd].
  destruct (run_each (f d) s (g d)) as [s1 [u|e]] eqn:Hd; [apply IH|done].
Qed.

Lemma run_each_rel {S A} (R : S → S → Prop) (step : S → A → S * Outcome unit)
    (l : list A) :
  (∀ s, R s s) → (∀ s1 s2 s3, R s1 s2 → R s2 s3 → R s1 s3) →
  (∀ s a, a ∈ l → R s (step s a).1) →
  ∀ s, R s (run_each step s l).1.
Proof.
  intros Hrefl Htrans. induction l as [|a l IH]; intros Hstep s; [apply Hrefl|].
  cbn [run_each]. pose proof (Hstep s a (list_elem_of_here _ _)) as Ha.
  destruct (step s a) as [s1 [u|e]]; [|done].
  apply (Htrans _ s1); [done|]. apply IH. intros s0 b Hb. apply Hstep. by right.
Qed.


Lemma run_each_skip {S A} (step : S → A → S * Outcome unit) (s : S) (l : list A) :
  (∀ a, a ∈ l → step s a = (s, Returned tt)) →
  run_each step s l = (s, Returned tt).
Proof.
  induction l as [|a l IH]; intros Hskip; [done|].
  cbn [run_each]. rewrite Hskip by left. apply IH. intros b Hb. apply Hskip. by right.
Qed.

Section loader.
Implicit Types (m : PluginManager) (p : Plugin) (st : PluginManager * nat)
  (ep : EntryPoint) (dist : Distribution).

Lemma elem_of_all_entry_points distributions dist ep :
  (dist, ep) ∈ all_entry_points distributions
  ↔ dist ∈ distributions ∧ ep ∈ entry_points dist.
Proof.
  unfold all_entry_points. rewrite list_elem_of_bind. split.
  - intros (d & Hin & Hd). apply list_elem_of_fmap in Hin as (e & [= -> ->] & He). done.
  - intros [Hd He]. exists dist. split; [|done]. apply list_elem_of_fmap. by exists ep.
Qed.

Lemma load_setuptools_entrypoints_flat m group distributions :
  load_setuptools_entrypoints m group distributions
  = (let run := run_each (λ st x, load_entry_point group x.1 st x.2) (m, 0)
                         (all_entry_points distributions) in
     (run.1.1, outcome_map (λ _, run.1.2) run.2)).
Proof.
  unfold load_setuptools_entrypoints, all_entry_points.
  by rewrite (run_each_nested (load_entry_point group) entry_points).
Qed.


Lemma register_distinfo m p name_arg :
  _plugin_distinfo (register m p name_arg).1 = _plugin_distinfo m.
Proof. unfold register. by case_bool_decide. Qed.

Lemma load_entry_point_skip group dist st ep :
  ep_group ep ≠ group ∨ ep_name ep ∈ dom (_name2plugin st.1) ∨ ep_load ep = None →
  load_entry_point group dist st ep = (st, Returned tt).
Proof.
  destruct st as [m count]. unfold load_entry_point. simpl.
  intros [Hg|[Hn|Hl]]; repeat case_bool_decide; try done. by rewrite Hl.
Qed.

Lemma load_entry_point_load group dist m count ep p :
  ep_group ep = group → ep_name ep ∉ dom (_name2plugin m) → ep_load ep = Some p →
  load_entry_point group dist (m, count) ep
  = match register m p (Some (ep_name ep)) with
    | (m1, Returned _) =>
        ((append_distinfo m1 (p, {| _dist := dist |}), S count), Returned tt)
    | (m1, Raised e) => ((m1, count), Raised e)
    end.
Proof.
  intros Hg Hn Hl. unfold load_entry_point.
  rewrite bool_decide_eq_false_2 by (by intros ?).
  rewrite bool_decide_eq_false_2 by done. by rewrite Hl.
Qed.

(** What one entry point does, by cases. *)
Lemma load_entry_point_cases group dist st ep :
  load_entry_point group dist st ep = (st, Returned tt)
  ∨ ∃ p, ep_group ep = group ∧ (ep_name ep ∉ dom (_name2plugin st.1))
         ∧ ep_load ep = Some p
         ∧ ((∃ r, (register st.1 p (Some (ep_name ep))).2 = Returned r
                  ∧ load_entry_point group dist st ep
                    = ((append_distinfo (register st.1 p (Some (ep_name ep))).1
                          (p, {| _dist := dist |}), S st.2), Returned tt))
            ∨ (∃ e, (register st.1 p (Some (ep_name ep))).2 = Raised e
                    ∧ load_entry_point group dist st ep
                      = (((register st.1 p (Some (ep_name ep))).1, st.2), Raised e))).
Proof.
  destruct st as [m count]. cbn [fst snd].
  destruct (decide (ep_group ep = group)) as [Hg|Hg];
    [|left; rewrite load_entry_point_skip by auto; done].
  destruct (decide (ep_name ep ∈ dom (_name2plugin m))) as [Hn|Hn];
    [left; rewrite load_entry_point_skip by auto; done|].
  destruct (ep_load ep) as [p|] eqn:Hl;
    [|left; rewrite load_entry_point_skip by auto; done].
  right. exists p. split_and!; [done..|].
  rewrite (load_entry_point_load _ _ _ _ _ p) by done.
  destruct (register m p (Some (ep_name ep))) as [m1 [r|e]]; cbn [fst snd]; eauto.
Qed.




End loader.


(** * The claims on the sample plugins *)

Lemma reachable_manager_AB : reachable manager_AB.
Proof. unfold manager_AB. do 2 apply reachable_register. apply reachable_init. Qed.

Lemma reachable_manager_ABC : reachable manager_ABC.
Proof. unfold manager_ABC. apply reachable_register, reachable_manager_AB. Qed.

Lemma reachable_manager_same_name : reachable manager_same_name.
Proof.
  unfold manager_same_name. do 2 apply reachable_register. apply reachable_init.
Qed.

(** Registering [A], [B], [C] in that order gives the hook caller
    [caller_ABC], and a spec with [firstresult=True] declared after [A] and
    [B] were registered turns their hook caller into [caller_AB_first]. *)
Example relay_of_manager_ABC : hook manager_ABC !! "h"%string = Some caller_ABC.
Proof. vm_compute. reflexivity. Qed.

Example relay_of_manager_AB_first :
  hook manager_AB_first !! "h"%string = Some caller_AB_first.
Proof. vm_compute. reflexivity. Qed.

(** An implementation that declares [x] only receives [x=1] out of
    [x=1, y=2]: it sees one keyword argument. *)
Example x_only_receives_x :
  _call_impl impl_x_only {[ "x"%string := PyInt 1; "y"%string := PyInt 2 ]}
  = ([(impl_x_only, {[ "x"%string := PyInt 1 ]})], Returned (PyInt 1)).
Proof. vm_compute. reflexivity. Qed.

(** The walk sees each member name once: an unmarked override hides the
    marked method of the base class, and no record is made. *)
Example override_hides_base_hookimpl :
  implements plugin_override "h" = false
  ∧ (register fresh_manager plugin_override None).2 = Returned (Some "Override"%string)
  ∧ hook (register fresh_manager plugin_override None).1 = ∅.
Proof. vm_compute. split_and!; reflexivity. Qed.

(** A plugin with a marked method [__str__]: the relay object has an
    attribute of that name already, so [register] raises when the walk
    gets there.  The plugin is in both tables by then and the hook [g],
    walked before, has its record; the hook [h], not reached, has none, and
    registering the plugin again returns [None] and adds nothing. *)
Example register_marked_str_raises :
  (register fresh_manager plugin_str None).2 = Raised (AttributeError "__str__")
  ∧ is_registered (register fresh_manager plugin_str None).1 plugin_str = true
  ∧ list_name_plugin (register fresh_manager plugin_str None).1
    = [("Str"%string, plugin_str)]
  ∧ length (impls_of (hook (register fresh_manager plugin_str None).1) "g") = 1
  ∧ implements plugin_str "h" = true
  ∧ hook (register fresh_manager plugin_str None).1 !! "h"%string = None
  ∧ (register (register fresh_manager plugin_str None).1 plugin_str None).2
    = Returned None.
Proof. vm_compute. split_and!; reflexivity. Qed.

(** A collecting hook without implementations returns the empty list. *)
Example empty_collect_all :
  HookCaller_call (HookCaller_init "h" false) ∅ = ([], Returned (PyList [])).
Proof. reflexivity. Qed.

Lemma dispatch_collect_all_reverse_order_witness :
  _firstresult caller_ABC = false
  ∧ HookCaller_call caller_ABC ∅
    = (call_of ∅ <$> reverse (_hookimpls caller_ABC),
       Returned (PyList (filter (λ o, is_not_None o)
                           [PyStr "C"; PyStr "B"; PyStr "A"]))).
Proof.
  split; [reflexivity|].
  apply (dispatch_collect_all_reverse_order caller_ABC ∅
           [PyStr "C"; PyStr "B"; PyStr "A"]); reflexivity.
Defined.

Lemma dispatch_firstresult_witness :
  _firstresult caller_AB_first = true
  ∧ HookCaller_call caller_AB_first ∅
    = (call_of ∅ <$> ([] ++ [impl_B]), Returned (PyStr "B"))
  ∧ HookCaller_call (HookCaller_init "h" true) ∅
    = (call_of ∅ <$> reverse [], Returned PyNone).
Proof.
  split; [reflexivity|]. split.
  - apply (proj1 (dispatch_firstresult caller_AB_first ∅ eq_refl)
             [] impl_B [impl_A] (PyStr "B"));
      [reflexivity | constructor | reflexivity | discriminate].
  - apply (proj2 (dispatch_firstresult (HookCaller_init "h" true) ∅ eq_refl)).
    constructor.
Defined.

(** Against C3: an unregistered plugin object given to [unregister] comes
    back as the result, which is not [None]. *)
Lemma unregister_unknown_object_returns_it :
  is_registered manager_AB plugin_C = false
  ∧ resolve_plugin manager_AB None (Some "C"%string) = None
  ∧ (unregister manager_AB (Some plugin_C) (Some "C"%string)).2 ≠ None.
Proof. vm_compute. split_and!; [reflexivity | reflexivity | discriminate]. Qed.

Lemma unregister_unknown_leaves_manager_witness :
  reachable manager_AB
  ∧ is_registered manager_AB plugin_C = false
  ∧ _name2plugin manager_AB !! "C"%string = None
  ∧ unregister manager_AB (Some plugin_C) (Some "C"%string)
    = (manager_AB, Some plugin_C).
Proof.
  assert (is_registered manager_AB plugin_C = false) as Hc
    by (vm_compute; reflexivity).
  assert (_name2plugin manager_AB !! "C"%string = None) as Hn
    by (vm_compute; reflexivity).
  split_and!; [apply reachable_manager_AB | exact Hc | exact Hn |].
  exact (unregister_unknown_leaves_manager manager_AB (Some plugin_C)
           (Some "C"%string) reachable_manager_AB Hc Hn).
Defined.



Lemma unregister_removes_plugin_witness :
  reachable manager_ABC
  ∧ resolve_plugin manager_ABC None (Some "B"%string) = Some plugin_B
  ∧ is_registered manager_ABC plugin_B = true
  ∧ (unregister manager_ABC None (Some "B"%string)).2 = Some plugin_B
  ∧ impls_of (hook (unregister manager_ABC None (Some "B"%string)).1) "h"
    = filter (is_not_plugin plugin_B) (impls_of (hook manager_ABC) "h").
Proof.
  assert (resolve_plugin manager_ABC None (Some "B"%string) = Some plugin_B) as Hres
    by (vm_compute; reflexivity).
  assert (is_registered manager_ABC plugin_B = true) as Hb
    by (vm_compute; reflexivity).
  pose proof (unregister_removes_plugin manager_ABC _ None (Some "B"%string)
                plugin_B _ reachable_manager_ABC Hres Hb
                (surjective_pairing _)) as (Hr & _ & _ & _ & _ & Himpls & _).
  split_and!; [apply reachable_manager_ABC | exact Hres | exact Hb | exact Hr
              | apply Himpls].
Defined.

(** After [B] is unregistered the hook answers with [C] and [A]. *)
Example dispatch_after_unregister_B :
  (HookCaller_call
     {| name := "h";
        _hookimpls := impls_of (hook (unregister manager_ABC None (Some "B"%string)).1) "h";
        _firstresult := false |} ∅).2
  = Returned (PyList [PyStr "C"; PyStr "A"]).
Proof. vm_compute. reflexivity. Qed.



(** A marked member [__class__] of what is given as spec class: the
    assignment of the flag lands on the class of the relay, no hook caller
    is made for [__class__], and the walk goes on to [h]. *)
Example marked_class_member_declares_no_hook :
  (add_hookspecs fresh_manager spec_instance_of_marked_class).2 = Returned tt
  ∧ hook (add_hookspecs fresh_manager spec_instance_of_marked_class).1
      !! "__class__"%string = None
  ∧ hook_class (add_hookspecs fresh_manager spec_instance_of_marked_class).1
      !! "_firstresult"%string = Some false
  ∧ hook (add_hookspecs fresh_manager spec_instance_of_marked_class).1 !! "h"%string
    = Some (HookCaller_init "h" true).
Proof. vm_compute. split_and!; reflexivity. Qed.

(** Against C8: after [A] and [B] were registered under the same name the
    identity table still maps [A] to that name, which the name table binds
    to [B]. *)
Lemma same_name_breaks_mutual_consistency :
  reachable manager_same_name ∧ ¬ tables_mutually_consistent manager_same_name.
Proof.
  split; [apply reachable_manager_same_name|]. intros (_ & Hback & _).
  destruct (Hback 1%positive "p"%string) as (q & Hq & Hid).
  - vm_compute. reflexivity.
  - vm_compute in Hq. injection Hq as <-. discriminate Hid.
Qed.

Lemma reachable_tables_invariant_witness :
  reachable manager_same_name
  ∧ ∀ n q, _name2plugin manager_same_name !! n = Some q →
           _plugin2name manager_same_name !! py_id q = Some n.
Proof.
  split; [apply reachable_manager_same_name|].
  apply (reachable_tables_invariant manager_same_name reachable_manager_same_name).
Defined.


(** A load whose first entry point gives [plugin_str]: [register] raises,
    and so does the load; the plugin is registered, but it is not recorded
    with its distribution, and the entry point after it is not loaded. *)
Example load_ends_when_register_raises :
  (load_setuptools_entrypoints fresh_manager "jac" [dist_str]).2
  = Raised (AttributeError "__str__")
  ∧ list_plugin_distinfo (load_setuptools_entrypoints fresh_manager "jac" [dist_str]).1
    = []
  ∧ list_name_plugin (load_setuptools_entrypoints fresh_manager "jac" [dist_str]).1
    = [("s"%string, plugin_str)]
  ∧ is_registered (load_setuptools_entrypoints fresh_manager "jac" [dist_str]).1
      plugin_C = false.
Proof. vm_compute. split_and!; reflexivity. Qed.

Lemma unregister_object_and_other_name_witness :
  _plugin2name manager_AB !! py_id plugin_A = Some "A"%string
  ∧ _plugin2name manager_AB !! py_id plugin_B = Some "B"%string
  ∧ _name2plugin manager_AB !! "B"%string = Some plugin_B
  ∧ (unregister manager_AB (Some plugin_A) (Some "B"%string)).2 = Some plugin_A
  ∧ _name2plugin (unregister manager_AB (Some plugin_A) (Some "B"%string)).1
      !! "A"%string = None
  ∧ owned (py_id plugin_A)
      (impls_of (hook (unregister manager_AB (Some plugin_A) (Some "B"%string)).1) "h")
    = []
  ∧ is_registered (unregister manager_AB (Some plugin_A) (Some "B"%string)).1 plugin_B
    = true
  ∧ _name2plugin (unregister manager_AB (Some plugin_A) (Some "B"%string)).1
      !! "B"%string = None.
Proof.
  assert (_plugin2name manager_AB !! py_id plugin_A = Some "A"%string) as Ha
    by (vm_compute; reflexivity).
  assert (_plugin2name manager_AB !! py_id plugin_B = Some "B"%string) as Hb
    by (vm_compute; reflexivity).
  assert (_name2plugin manager_AB !! "B"%string = Some plugin_B) as Hnb
    by (vm_compute; reflexivity).
  pose proof (unregister_object_and_other_name manager_AB _ plugin_A plugin_B
                "A" "B" _ Ha Hb Hnb ltac:(discriminate) (surjective_pairing _))
    as (Hr & _ & Hna & _ & _ & Hrec & Hreg & _ & Hgone & _).
  split_and!; [exact Ha | exact Hb | exact Hnb | exact Hr | exact Hna | apply Hrec
              | exact Hreg | exact Hgone].
Defined.

(** [list_name_plugin] lists the bindings in the order in which the names
    were bound. *)
Example list_name_plugin_in_registration_order :
  list_name_plugin manager_ABC
  = [("A"%string, plugin_A); ("B"%string, plugin_B); ("C"%string, plugin_C)]
  ∧ list_name_plugin (unregister manager_ABC None (Some "B"%string)).1
    = [("A"%string, plugin_A); ("C"%string, plugin_C)].
Proof. vm_compute. split; reflexivity. Qed.

(** * The relay after a registration *)

Section registration.
Implicit Types (hooks : gmap string HookCaller) (hc : HookCaller)
  (p q : Plugin) (m : PluginManager) (h : string).

Lemma extend_caller_Some h hc (added : list HookImpl) :
  ∃ hc', extend_caller h (Some hc) added = Some hc'
         ∧ name hc' = name hc ∧ _firstresult hc' = _firstresult hc
         ∧ _hookimpls hc' = _hookimpls hc ++ added.
Proof.
  unfold extend_caller. destruct added as [|i added].
  - exists hc. by rewrite app_nil_r.
  - rewrite foldl_add_hookimpl. eexists. by split_and!.
Qed.

Lemma extend_caller_None h (added : list HookImpl) :
  extend_caller h None added
  = match added with
    | [] => None
    | _ => Some {| name := h; _hookimpls := added; _firstresult := false |}
    end.
Proof. unfold extend_caller. destruct added; [done|]. by rewrite foldl_add_hookimpl. Qed.

(** The relay after [register], however it ended: the walk went over an
    initial stretch of the members, all of them if it did not raise. *)
Lemma register_walked m p name_arg :
  py_id p ∉ dom (_plugin2name m) →
  ∃ walked rest,
    concat (mro p) = walked ++ rest
    ∧ (∀ r, (register m p name_arg).2 = Returned r → rest = [])
    ∧ ∀ h, hook (register m p name_arg).1 !! h
           = extend_caller h (hook m !! h)
               (entries_impls p (py_or name_arg (_canonical_name p)) walked h).
Proof.
  intros Hfresh. rewrite register_fresh by done. cbn [fst snd hook].
  destruct (register_walk_walked (hook_class m) p
              (py_or name_arg (_canonical_name p)) (hook m))
    as (walked & rest & E & Hall & Hlook).
  exists walked, rest. split_and!; [done| |done].
  intros r Hr. destruct (register_walk _ _ _ _).2 as [u|e] eqn:Hw; [|done].
  by apply (Hall u).
Qed.

Lemma register_returns_iff m p name_arg :
  py_id p ∉ dom (_plugin2name m) →
  (register m p name_arg).2 = Returned (Some (py_or name_arg (_canonical_name p)))
  ↔ ∀ h, implements p h = true → relay_blocks m h = false.
Proof.
  intros Hfresh. rewrite register_fresh by done. cbn [snd].
  unfold relay_blocks.
  rewrite <- (register_walk_returns (hook_class m) p
                (py_or name_arg (_canonical_name p)) (hook m)).
  destruct (register_walk _ _ _ _).2 as [u|e]; cbn;
    (split; [eauto; done|]); [done|by intros [? ?]].
Qed.

Lemma register_raises m p name_arg e :
  (register m p name_arg).2 = Raised e →
  _plugin2name m !! py_id p = None
  ∧ ∃ h, e = AttributeError h ∧ implements p h = true ∧ relay_blocks m h = true.
Proof.
  destruct (decide (py_id p ∈ dom (_plugin2name m))) as [Hreg|Hreg].
  { by rewrite register_registered. }
  rewrite register_fresh by done. cbn [snd]. intros Hraised.
  split; [by apply not_elem_of_dom|].
  apply (register_walk_raises _ p (py_or name_arg (_canonical_name p))).
  destruct (register_walk _ _ _ _).2; cbn in Hraised; congruence.
Qed.

Lemma register_returned_name m p name_arg r :
  py_id p ∉ dom (_plugin2name m) →
  (register m p name_arg).2 = Returned r →
  r = Some (py_or name_arg (_canonical_name p)).
Proof.
  intros Hfresh. rewrite register_fresh by done. cbn [snd].
  destruct (register_walk _ _ _ _).2; cbn; congruence.
Qed.

Lemma remove_plugin_extended h (old : option HookCaller)
    (added : list HookImpl) p :
  (∀ i, i ∈ added → plugin i = p) →
  (∀ hc i, old = Some hc → i ∈ _hookimpls hc → py_id (plugin i) ≠ py_id p) →
  (λ hc, _remove_plugin hc p) <$> extend_caller h old added
  = match old with
    | Some hc => Some hc
    | None => match added with
              | [] => None
              | _ => Some (HookCaller_init h false)
              end
    end.
Proof.
  intros Hadded Hold.
  assert (filter (is_not_plugin p) added = []) as Hnone.
  { clear Hold. induction added as [|i added IH]; [done|].
    rewrite filter_cons_False.
    - apply IH. intros j Hj. apply Hadded. by right.
    - unfold is_not_plugin. rewrite (Hadded i) by left. by intros ?. }
  assert (∀ hc, old = Some hc →
            filter (is_not_plugin p) (_hookimpls hc) = _hookimpls hc) as Hkeep.
  { intros hc Hhc. pose proof (remove_plugin_absent hc p (λ i, Hold hc i Hhc)) as E.
    destruct hc. by injection E. }
  unfold extend_caller. destruct added as [|i added].
  - destruct old as [hc|]; [|done]. simpl. f_equal.
    apply remove_plugin_absent. intros j. by apply Hold.
  - rewrite foldl_add_hookimpl. unfold _remove_plugin. simpl.
    rewrite filter_app, Hnone, app_nil_r.
    destruct old as [hc|]; simpl.
    + rewrite (Hkeep hc) by done. by destruct hc.
    + done.
Qed.
End registration.

(** X9: registering an unregistered plugin only appends records, to any
    hook at most the one record of the plugin for that hook, and a hook
    caller that existed keeps its name and its [firstresult] flag.  When
    [register] returns, each hook got the record of the first member of
    its name along the resolution order, if that is a marked callable that
    resolves, and nothing else, and a hook caller that did not exist was
    created, with [firstresult] false, only when the plugin implements the
    hook. *)
Theorem register_extends_relay (m : PluginManager) (p : Plugin)
    (name_arg : option string) (h : string) :
  is_registered m p = false →
  (∃ added,
     impls_of (hook (register m p name_arg).1) h = impls_of (hook m) h ++ added
     ∧ (added = []
        ∨ added = plugin_impls p (py_or name_arg (_canonical_name p)) h))
  ∧ (∀ hc, hook m !! h = Some hc →
       ∃ hc', hook (register m p name_arg).1 !! h = Some hc'
              ∧ name hc' = name hc ∧ _firstresult hc' = _firstresult hc)
  ∧ (∀ r, (register m p name_arg).2 = Returned r →
       impls_of (hook (register m p name_arg).1) h
       = impls_of (hook m) h ++ plugin_impls p (py_or name_arg (_canonical_name p)) h
       ∧ (hook m !! h = None →
          hook (register m p name_arg).1 !! h
          = if implements p h
            then Some {| name := h;
                         _hookimpls :=
                           plugin_impls p (py_or name_arg (_canonical_name p)) h;
                         _firstresult := false |}
            else None)).
Proof.
  intros Hfresh%is_registered_false.
  assert (py_id p ∉ dom (_plugin2name m)) as Hdom by by apply not_elem_of_dom.
  set (pname := py_or name_arg (_canonical_name p)).
  destruct (register_walked m p name_arg Hdom) as (walked & rest & E & Hall & Hlook).
  fold pname in Hlook. split_and!.
  - exists (entries_impls p pname walked h). split.
    + unfold impls_of at 1. rewrite Hlook. apply impls_of_extend.
    + rewrite plugin_impls_entries, E. apply entries_impls_prefix.
  - intros hc Hhc. rewrite Hlook, Hhc.
    destruct (extend_caller_Some h hc (entries_impls p pname walked h))
      as (hc' & -> & Hn & Hf & _).
    by exists hc'.
  - intros r Hr. split; [by apply (register_returned_impls _ _ _ r)|].
    intros Hnone. rewrite (register_returned_lookup _ _ _ r), Hnone by done.
    fold pname. rewrite extend_caller_None.
    pose proof (plugin_impls_length p pname h) as Hlen.
    by destruct (plugin_impls p pname h), (implements p h).
Qed.

(** X7: [register] leaves the plugin registered in every case, and answers
    [None] exactly when it already was.  Otherwise it binds the name to the
    plugin and the identity to the name, where the name is the explicit
    one, or, for no name or the empty name, [__name__] or else the type
    name, and leaves every other name and identity as it was; it then
    answers that name exactly when the relay blocks none of the hooks that
    the plugin implements, and else raises [AttributeError] for such a
    hook, the tables staying written. *)
Theorem register_result (m : PluginManager) (p : Plugin)
    (name_arg : option string) :
  is_registered (register m p name_arg).1 p = true
  ∧ ((register m p name_arg).2 = Returned None ↔ is_registered m p = true)
  ∧ (is_registered m p = false →
     let pname := py_or name_arg (_canonical_name p) in
     _name2plugin (register m p name_arg).1 !! pname = Some p
     ∧ _plugin2name (register m p name_arg).1 !! py_id p = Some pname
     ∧ (∀ n, n ≠ pname →
          _name2plugin (register m p name_arg).1 !! n = _name2plugin m !! n)
     ∧ (∀ pid, pid ≠ py_id p →
          _plugin2name (register m p name_arg).1 !! pid = _plugin2name m !! pid)
     ∧ ((register m p name_arg).2 = Returned (Some pname)
        ↔ ∀ h, implements p h = true → relay_blocks m h = false)
     ∧ ((register m p name_arg).2 = Returned (Some pname)
        ∨ ∃ h, (register m p name_arg).2 = Raised (AttributeError h)
               ∧ implements p h = true ∧ relay_blocks m h = true)).
Proof.
  destruct (decide (py_id p ∈ dom (_plugin2name m))) as [Hreg|Hreg].
  - rewrite register_registered by done. cbn [fst snd].
    pose proof (proj2 (is_registered_true m p) Hreg) as Htrue.
    split_and!; [done | done |]. rewrite Htrue. done.
  - assert (is_registered m p = false) as Hfalse
      by by apply is_registered_false, not_elem_of_dom.
    split_and!.
    + apply is_registered_true. rewrite register_dom. set_solver.
    + rewrite Hfalse. split; [|done]. intros Hnone.
      apply (register_returned_name _ _ _ _ Hreg) in Hnone. done.
    + intros _ pname. split_and!.
      * rewrite register_fresh by done. apply lookup_insert_eq.
      * rewrite register_fresh by done. apply lookup_insert_eq.
      * intros n Hn. rewrite register_fresh by done. cbn.
        by rewrite lookup_insert_ne.
      * intros pid Hpid. by apply register_lookup_other.
      * by apply register_returns_iff.
      * destruct (register m p name_arg).2 as [r|e] eqn:Hout.
        -- left. f_equal. by eapply register_returned_name.
        -- right. apply register_raises in Hout as (_ & h & -> & Hh & Hb). eauto.
Qed.

(** X10: when [register] returns for an unregistered plugin, the
    implementation of that plugin is the first one that a dispatch of its
    hook calls; if the hook is a [firstresult] hook and that implementation
    returns something other than [None], this is the result and no older
    implementation is called. *)
Theorem last_registered_is_dispatched_first (m : PluginManager) (p : Plugin)
    (name_arg : option string) (h : string) (r : option string) :
  is_registered m p = false →
  implements p h = true →
  (register m p name_arg).2 = Returned r →
  ∃ hc' impl,
    hook (register m p name_arg).1 !! h = Some hc'
    ∧ plugin impl = p
    ∧ reverse (_hookimpls hc') = impl :: reverse (impls_of (hook m) h)
    ∧ ∀ kwargs result,
        _firstresult hc' = true →
        answer kwargs impl = Returned result →
        result ≠ PyNone →
        HookCaller_call hc' kwargs = ([call_of kwargs impl], Returned result).
Proof.
  intros Hfresh%is_registered_false Himpl Hret.
  rewrite (register_returned_lookup _ _ _ r) by (by apply not_elem_of_dom || done).
  set (pname := py_or name_arg (_canonical_name p)).
  pose proof (plugin_impls_length p pname h) as Hlen. rewrite Himpl in Hlen.
  destruct (plugin_impls p pname h) as [|impl [|]] eqn:Hadded; try done.
  assert (plugin impl = p) as Hp.
  { apply (plugin_impls_owner p pname h). rewrite Hadded. by left. }
  unfold extend_caller. rewrite foldl_add_hookimpl.
  eexists _, impl. split; [done|]. split; [done|].
  assert (_hookimpls (default (HookCaller_init h false) (hook m !! h))
          = impls_of (hook m) h) as Hold.
  { unfold impls_of. by destruct (hook m !! h). }
  cbn [_hookimpls]. rewrite Hold, reverse_app. split; [done|].
  intros kwargs result Hfirst Hres Hnn. unfold HookCaller_call.
  rewrite Hfirst. cbn [_hookimpls]. rewrite reverse_app.
  apply (firstresult_loop_found [] impl); [constructor | done | by destruct result].
Qed.

(** X11: registering an unregistered plugin under a free name and
    unregistering it again gives back the two tables, the order of the
    names and every hook caller there was, whether [register] returned or
    raised.  A hook caller created for the plugin stays in the relay,
    without records and with [firstresult] false: when [register] returned,
    that is one for each hook without a hook caller that the plugin
    implements. *)
Theorem register_then_unregister (m m2 : PluginManager) (p : Plugin)
    (name_arg : option string) (r : option Plugin) :
  reachable m →
  is_registered m p = false →
  _name2plugin m !! py_or name_arg (_canonical_name p) = None →
  unregister (register m p name_arg).1 (Some p) None = (m2, r) →
  r = Some p
  ∧ _name2plugin m2 = _name2plugin m
  ∧ list_name_plugin m2 = list_name_plugin m
  ∧ _plugin2name m2 = _plugin2name m
  ∧ _plugin_distinfo m2 = _plugin_distinfo m
  ∧ (∀ h hc, hook m !! h = Some hc → hook m2 !! h = Some hc)
  ∧ (∀ h, hook m !! h = None →
       hook m2 !! h
       = match hook (register m p name_arg).1 !! h with
         | Some _ => Some (HookCaller_init h false)
         | None => None
         end)
  ∧ (∀ r0 h, (register m p name_arg).2 = Returned r0 → hook m !! h = None →
       hook m2 !! h
       = if implements p h then Some (HookCaller_init h false) else None).
Proof.
  intros Hm%reachable_consistent Hfresh%is_registered_false Hname Hun.
  assert (py_id p ∉ dom (_plugin2name m)) as Hdom by by apply not_elem_of_dom.
  set (pname := py_or name_arg (_canonical_name p)) in *.
  destruct (register_walked m p name_arg Hdom) as (walked & rest & E & Hall & Hlook).
  fold pname in Hlook.
  assert (∀ h, hook m2 !! h
               = (λ hc, _remove_plugin hc p) <$> hook (register m p name_arg).1 !! h)
    as Hm2.
  { intros h. rewrite (unregister_resolved _ _ _ p) in Hun by done.
    injection Hun as <- _. cbn [hook]. by rewrite lookup_fmap. }
  assert (∀ h, hook m2 !! h
               = match hook m !! h with
                 | Some hc => Some hc
                 | None => match entries_impls p pname walked h with
                           | [] => None
                           | _ => Some (HookCaller_init h false)
                           end
                 end) as Hrelay.
  { intros h. rewrite Hm2, Hlook. apply remove_plugin_extended.
    - intros i Hi. by apply (entries_impls_owner p pname walked h).
    - intros hc i Hhc Hi E'.
      assert (py_id (plugin i) ∈ dom (_plugin2name m)) as Hin.
      { apply (impls_registered m Hm h). by rewrite (impls_of_Some _ _ _ Hhc). }
      rewrite E' in Hin. done. }
  assert (¬ pname ∈ _name2plugin_keys m) as Hkey.
  { intros [q Hq]%(keys_bound m Hm). congruence. }
  assert (filter (λ k, k ≠ pname) (_name2plugin_keys m ++ [pname])
          = _name2plugin_keys m) as Hkeys.
  { rewrite filter_app, filter_cons_False, filter_nil, app_nil_r by (by intros ?).
    by apply filter_ne_absent. }
  rewrite register_fresh in Hun by done.
  cbn [fst] in Hun. rewrite (unregister_resolved _ _ _ p) in Hun by done.
  cbn [_plugin2name _name2plugin _name2plugin_keys hook project_name
       _plugin_distinfo hook_class] in Hun.
  rewrite lookup_insert_eq in Hun. fold pname in Hun. cbn zeta in Hun.
  rewrite bool_decide_eq_false_2 in Hun by (by apply not_elem_of_dom).
  unfold name_pop in Hun. cbn [fst snd] in Hun. rewrite Hkeys in Hun.
  assert (_name2plugin m2 = _name2plugin m) as Hn2p.
  { injection Hun as <- _. cbn. by apply delete_insert_id. }
  assert (_name2plugin_keys m2 = _name2plugin_keys m) as Hk2
    by by injection Hun as <- _.
  split_and!.
  - by injection Hun as _ <-.
  - done.
  - unfold list_name_plugin. by rewrite Hn2p, Hk2.
  - injection Hun as <- _. cbn. by apply delete_insert_id.
  - by injection Hun as <- _.
  - intros h hc Hh. by rewrite Hrelay, Hh.
  - intros h Hh. rewrite Hrelay, Hlook, Hh, extend_caller_None.
    by destruct (entries_impls p pname walked h).
  - intros r0 h Hret Hh. rewrite Hrelay, Hh.
    rewrite (Hall r0 Hret), app_nil_r in E.
    rewrite <- E, <- plugin_impls_entries.
    pose proof (plugin_impls_length p pname h) as Hlen.
    by destruct (plugin_impls p pname h), (implements p h).
Qed.

(** X12: in a reachable manager, unregistering by a bound name, by the object it
    is bound to, or by both, is the same operation with the same result. *)
Theorem unregister_by_name_or_object (m : PluginManager) (p : Plugin) (n : string) :
  reachable m →
  _name2plugin m !! n = Some p →
  unregister m None (Some n) = unregister m (Some p) None
  ∧ unregister m (Some p) (Some n) = unregister m (Some p) None.
Proof.
  intros [I1 _ _ _ _]%reachable_consistent Hn. pose proof (I1 n p Hn) as Hid.
  rewrite !(unregister_resolved _ _ _ p) by done. rewrite Hid.
  by rewrite bool_decide_eq_false_2 by (by intros ?).
Qed.

(** X13: unregistering is idempotent: once [unregister] has answered with a
    plugin, unregistering that plugin object again changes nothing and
    answers with the object again. *)
Theorem unregister_again_is_noop (m m1 : PluginManager)
    (plugin_arg : option Plugin) (name_arg : option string) (p : Plugin) :
  reachable m →
  unregister m plugin_arg name_arg = (m1, Some p) →
  is_registered m1 p = false
  ∧ unregister m1 (Some p) None = (m1, Some p).
Proof.
  intros Hm Hun.
  pose proof (consistent_unregister m plugin_arg name_arg
                (reachable_consistent m Hm)) as Hm1.
  rewrite Hun in Hm1. cbn [fst] in Hm1.
  assert (_plugin2name m1 !! py_id p = None) as Hgone.
  { unfold unregister in Hun.
    destruct (resolve_plugin m plugin_arg name_arg) as [q|]; [|done].
    injection Hun as <- ->. cbn. apply lookup_delete_eq. }
  split; [by apply is_registered_false|].
  by apply unregister_object_unregistered.
Qed.

(** X8: the name under which [register] registers an unregistered plugin:
    the explicit name unless it is missing or empty, else the plugin's
    [__name__] unless it is missing or empty, else the name of its type.
    The two tables hold that name for the plugin whether [register] returns
    or raises, and it is what [register] answers when it returns. *)
Theorem registered_name_resolution (m : PluginManager) (p : Plugin)
    (name_arg : option string) :
  is_registered m p = false →
  let n := match name_arg with
           | Some (String c s) => String c s
           | _ => match py_name p with
                  | Some (String c s) => String c s
                  | _ => type_name p
                  end
           end in
  _plugin2name (register m p name_arg).1 !! py_id p = Some n
  ∧ _name2plugin (register m p name_arg).1 !! n = Some p
  ∧ (∀ r, (register m p name_arg).2 = Returned r → r = Some n)
  ∧ ((register m p name_arg).2 = Returned (Some n)
     ∨ ∃ h, (register m p name_arg).2 = Raised (AttributeError h)).
Proof.
  intros Hfresh%is_registered_false.
  assert (py_id p ∉ dom (_plugin2name m)) as Hdom by by apply not_elem_of_dom.
  assert (py_or name_arg (_canonical_name p)
          = match name_arg with
            | Some (String c s) => String c s
            | _ => match py_name p with
                   | Some (String c s) => String c s
                   | _ => type_name p
                   end
            end) as <-.
  { unfold _canonical_name, py_or, truthy.
    destruct name_arg as [[|c s]|]; try done; by destruct (py_name p) as [[|c' s']|]. }
  cbn zeta. split_and!.
  - rewrite register_fresh by done. apply lookup_insert_eq.
  - rewrite register_fresh by done. apply lookup_insert_eq.
  - intros r. by apply register_returned_name.
  - destruct (register m p name_arg).2 as [r|e] eqn:Hout.
    + left. f_equal. by eapply register_returned_name.
    + right. apply register_raises in Hout as (_ & h & -> & _). eauto.
Qed.

(** * More on declaring hook specifications *)

(** X14: declaring the same spec class a second time changes nothing: it
    leaves the manager as the first time left it, and ends as the first
    time did. *)
Theorem add_hookspecs_idempotent (m : PluginManager)
    (spec_class : list (string * option SpecMethod)) :
  add_hookspecs (add_hookspecs m spec_class).1 spec_class = add_hookspecs m spec_class.
Proof.
  unfold add_hookspecs. cbn [fst snd hook hook_class project_name _name2plugin
                             _name2plugin_keys _plugin2name _plugin_distinfo].
  rewrite <- surjective_pairing, add_hookspecs_run_twice. done.
Qed.

(** X15: [add_hookspecs] touches neither table nor the distribution list nor
    any list of records, and a hook that no marked method of the spec class
    names keeps its hook caller as it is, or stays without one. *)
Theorem add_hookspecs_frame (m : PluginManager)
    (spec_class : list (string * option SpecMethod)) :
  _name2plugin (add_hookspecs m spec_class).1 = _name2plugin m
  ∧ _plugin2name (add_hookspecs m spec_class).1 = _plugin2name m
  ∧ _plugin_distinfo (add_hookspecs m spec_class).1 = _plugin_distinfo m
  ∧ (∀ h, impls_of (hook (add_hookspecs m spec_class).1) h = impls_of (hook m) h)
  ∧ (∀ h, (∀ method, (h, method) ∈ spec_class →
             method = None ∨ ∃ meth, method = Some meth ∧ _jac_hookspec meth = None) →
          hook (add_hookspecs m spec_class).1 !! h = hook m !! h).
Proof.
  split_and!; try done.
  - intros h. apply add_hookspecs_impls.
  - intros h Hunmarked.
    destruct (add_hookspecs_hook_prefix m spec_class)
      as (pre & post & E & -> & _ & _).
    rewrite foldl_declare_attr_lookup, declared_policy_None; [done|].
    intros method Hin.
    destruct (Hunmarked method) as [->|(meth & -> & Hm)];
      [rewrite E; apply elem_of_app; by left|done|].
    unfold spec_firstresult. by rewrite Hm.
Qed.

(** * What records and hook callers carry *)

Section wellformed.
Implicit Types (p : Plugin) (m : PluginManager) (h : string).

Lemma relay_wf_init pname class_attrs :
  relay_wf (PluginManager_init pname class_attrs).
Proof.
  split; cbn; [intros h hc; by rewrite lookup_empty|..];
    intros h i; unfold impls_of; rewrite lookup_empty; by intros ?%elem_of_nil.
Qed.

Lemma relay_wf_register m p name_arg :
  consistent m → relay_wf m → relay_wf (register m p name_arg).1.
Proof.
  intros Hm [W1 W2 W3].
  destruct (decide (py_id p ∈ dom (_plugin2name m))) as [Hreg|Hreg].
  { by rewrite register_registered. }
  destruct (register_walked m p name_arg Hreg) as (walked & rest & _ & _ & Hlook).
  set (pname := py_or name_arg (_canonical_name p)) in *.
  assert (∀ h, impls_of (hook (register m p name_arg).1) h
               = impls_of (hook m) h ++ entries_impls p pname walked h) as Himpls.
  { intros h. unfold impls_of at 1. rewrite Hlook. apply impls_of_extend. }
  assert (_plugin2name (register m p name_arg).1
          = <[py_id p := pname]> (_plugin2name m)) as Hp2n
    by by rewrite register_fresh.
  split.
  - intros h hc. rewrite Hlook. destruct (hook m !! h) as [old|] eqn:Hold.
    + destruct (extend_caller_Some h old (entries_impls p pname walked h))
        as (hc' & -> & Hn & _). intros [= <-]. rewrite Hn. by apply W1.
    + rewrite extend_caller_None.
      destruct (entries_impls p pname walked h); [done|]. by intros [= <-].
  - intros h i. rewrite Himpls, Hp2n. intros [Hi|Hi]%elem_of_app.
    + rewrite lookup_insert_ne; [by apply (W2 h)|].
      intros E. apply Hreg. rewrite E. by apply (impls_registered m Hm h).
    + destruct (entries_impls_owner _ _ _ _ _ Hi) as (-> & -> & _).
      apply lookup_insert_eq.
  - intros h i. rewrite Himpls. intros [Hi|Hi]%elem_of_app.
    + by apply (W3 h).
    + by destruct (entries_impls_owner _ _ _ _ _ Hi) as (_ & _ & ?).
Qed.

Lemma relay_wf_unregister m (plugin_arg : option Plugin) (name_arg : option string) :
  relay_wf m → relay_wf (unregister m plugin_arg name_arg).1.
Proof.
  intros [W1 W2 W3]. unfold unregister.
  destruct (resolve_plugin m plugin_arg name_arg) as [p|]; [|by split].
  split; cbn.
  - intros h hc. rewrite lookup_fmap.
    destruct (hook m !! h) as [old|] eqn:Hold; [|done]. cbn. intros [= <-].
    cbn. by apply W1.
  - intros h i. rewrite impls_of_remove_plugin, list_elem_of_filter.
    intros [Hne Hi]. rewrite lookup_delete_ne; [by apply (W2 h)|].
    intros E. by apply Hne.
  - intros h i. rewrite impls_of_remove_plugin, list_elem_of_filter.
    intros [_ Hi]. by apply (W3 h).
Qed.

Lemma relay_wf_add_hookspecs m (spec_class : list (string * option SpecMethod)) :
  relay_wf m → relay_wf (add_hookspecs m spec_class).1.
Proof.
  intros [W1 W2 W3]. split.
  - intros h hc.
    destruct (add_hookspecs_hook_prefix m spec_class) as (pre & post & _ & -> & _).
    rewrite foldl_declare_attr_lookup. cbn [fst].
    destruct (declared_policy h pre) as [f|]; [|apply W1].
    intros [= <-]. destruct (hook m !! h) as [old|] eqn:Hold; cbn; [by apply W1|done].
  - intros h i. rewrite add_hookspecs_impls. apply W2.
  - intros h i. rewrite add_hookspecs_impls. apply W3.
Qed.

Lemma relay_wf_append_distinfo m entry :
  relay_wf m → relay_wf (append_distinfo m entry).
Proof. intros [W1 W2 W3]. by split. Qed.

Lemma wf_load_entry_point group dist (st : PluginManager * nat) ep :
  consistent st.1 ∧ relay_wf st.1 →
  consistent (load_entry_point group dist st ep).1.1
  ∧ relay_wf (load_entry_point group dist st ep).1.1.
Proof.
  intros [Hc Hw]. split; [by apply consistent_load_entry_point|].
  pose proof (relay_wf_register st.1) as Hreg.
  destruct (load_entry_point_cases group dist st ep)
    as [->|(p & _ & _ & _ & [(r & Hr & ->)|(e & He & ->)])]; cbn [fst].
  - done.
  - by apply relay_wf_append_distinfo, Hreg.
  - by apply Hreg.
Qed.

Lemma wf_load m group distributions :
  consistent m ∧ relay_wf m →
  relay_wf (load_setuptools_entrypoints m group distributions).1.
Proof.
  intros Hm. rewrite load_setuptools_entrypoints_flat. cbn zeta. cbn [fst].
  apply (run_each_rel (λ st st', consistent st.1 ∧ relay_wf st.1 →
                                 consistent st'.1 ∧ relay_wf st'.1)
           (λ st x, load_entry_point group x.1 st x.2)
           (all_entry_points distributions)); [done| |..|done].
  - intros s1 s2 s3 H12 H23 H1. by apply H23, H12.
  - intros st [dist ep] _. apply wf_load_entry_point.
Qed.

Lemma reachable_relay_wf m : reachable m → relay_wf m.
Proof.
  induction 1 as [pname class_attrs|m p name_arg Hm IH|m plugin_arg name_arg Hm IH
                  |m spec_class Hm IH|m group distributions Hm IH].
  - apply relay_wf_init.
  - by apply relay_wf_register; [apply reachable_consistent|].
  - by apply relay_wf_unregister.
  - by apply relay_wf_add_hookspecs.
  - apply wf_load. split; [by apply reachable_consistent|done].
Qed.
End wellformed.

(** X16: in a reachable manager every hook caller carries, as its [name], the
    attribute name under which the relay holds it. *)
Theorem hook_caller_named_as_attribute (m : PluginManager) (h : string)
    (hc : HookCaller) :
  reachable m → hook m !! h = Some hc → name hc = h.
Proof. intros Hm%reachable_relay_wf. apply Hm. Qed.

(** X17: in a reachable manager the plugin of every record is registered, and
    the [plugin_name] of the record is the name the identity table has for
    it. *)
Theorem record_carries_registered_name (m : PluginManager) (h : string)
    (i : HookImpl) :
  reachable m →
  i ∈ impls_of (hook m) h →
  is_registered m (plugin i) = true
  ∧ _plugin2name m !! py_id (plugin i) = Some (plugin_name i).
Proof.
  intros Hm Hi. pose proof (record_named m (reachable_relay_wf m Hm) h i Hi) as Hn.
  split; [|done]. apply is_registered_true, elem_of_dom. eauto.
Qed.

(** X18: in a reachable manager the [argnames] of every record are what the
    signature inspector gives for its function, so the function is called
    with all keyword arguments exactly when the inspector answers with the
    accept-everything sentinel. *)
Theorem record_argnames_from_inspector (m : PluginManager) (h : string)
    (i : HookImpl) (kwargs : Kwargs) :
  reachable m →
  i ∈ impls_of (hook m) h →
  argnames i = _get_argnames (function i)
  ∧ (_get_argnames (function i) = None → _call_impl i kwargs = invoke i kwargs).
Proof.
  intros Hm Hi.
  pose proof (record_argnames m (reachable_relay_wf m Hm) h i Hi) as Ha.
  split; [done|]. intros Hnone. unfold _call_impl. by rewrite Ha, Hnone.
Qed.

Lemma list_name_plugin_bound (m : PluginManager) :
  consistent m →
  list_name_plugin m
  = omap (λ n, (λ q, (n, q)) <$> _name2plugin m !! n) (_name2plugin_keys m)
  ∧ (list_name_plugin m).*1 = _name2plugin_keys m.
Proof.
  intros Hm. split; [done|]. unfold list_name_plugin.
  pose proof (λ n, proj1 (keys_bound m Hm n)) as Hbound.
  induction (_name2plugin_keys m) as [|k keys IH]; [done|]. cbn.
  destruct (Hbound k) as [q Hq]; [left|]. rewrite Hq. cbn. f_equal.
  apply IH. intros n Hn. apply Hbound. by right.
Qed.

Lemma elem_of_list_name_plugin (m : PluginManager) (n : string) (q : Plugin) :
  consistent m → (n, q) ∈ list_name_plugin m ↔ _name2plugin m !! n = Some q.
Proof.
  intros Hm. unfold list_name_plugin. rewrite list_elem_of_omap. split.
  - intros (k & _ & Hk). destruct (_name2plugin m !! k) eqn:E; by simplify_eq/=.
  - intros Hn. exists n. split; [apply (keys_bound m Hm); eauto|]. by rewrite Hn.
Qed.

(** X19: [list_name_plugin] of a reachable manager lists no name twice and no
    plugin twice, and every plugin it lists is registered. *)
Theorem list_name_plugin_distinct (m : PluginManager) :
  reachable m →
  NoDup (list_name_plugin m).*1
  ∧ NoDup (py_id <$> (list_name_plugin m).*2)
  ∧ ∀ n p, (n, p) ∈ list_name_plugin m → is_registered m p = true.
Proof.
  intros Hm%reachable_consistent.
  pose proof (names_registered m Hm) as I1.
  assert (NoDup (list_name_plugin m).*1) as Hnames.
  { rewrite (proj2 (list_name_plugin_bound m Hm)). apply (keys_nodup m Hm). }
  split_and!.
  - done.
  - rewrite <- list_fmap_compose.
    apply NoDup_fmap_2_strong; [|by apply NoDup_fmap_1 in Hnames].
    intros [n1 q1] [n2 q2] H1%elem_of_list_name_plugin H2%elem_of_list_name_plugin E;
      [|done..].
    cbn in E. pose proof (I1 _ _ H1) as E1. pose proof (I1 _ _ H2) as E2.
    rewrite E in E1. assert (n1 = n2) as -> by congruence. congruence.
  - intros n p Hp%elem_of_list_name_plugin; [|done].
    apply is_registered_true, elem_of_dom. rewrite (I1 n p Hp). eauto.
Qed.

(** * What no sequence of operations undoes *)

Section kept.
Implicit Types (hooks : gmap string HookCaller) (m : PluginManager).

Lemma callers_kept_refl (specs : bool) hooks : callers_kept specs hooks hooks.
Proof. intros h hc Hh. by exists hc. Qed.

Lemma callers_kept_trans (specs : bool) (h1 h2 h3 : gmap string HookCaller) :
  callers_kept specs h1 h2 → callers_kept specs h2 h3 → callers_kept specs h1 h3.
Proof.
  intros H12 H23 h hc Hh. destruct (H12 h hc Hh) as (hc2 & Hh2 & Hn2 & Hf2).
  destruct (H23 h hc2 Hh2) as (hc3 & Hh3 & Hn3 & Hf3).
  exists hc3. split_and!; [done|congruence|]. intros Hs.
  rewrite Hf3, Hf2; done.
Qed.

Lemma callers_kept_register (specs : bool) m (p : Plugin) (name_arg : option string) :
  callers_kept specs (hook m) (hook (register m p name_arg).1).
Proof.
  destruct (decide (py_id p ∈ dom (_plugin2name m))) as [Hreg|Hreg].
  { rewrite register_registered by done. apply callers_kept_refl. }
  destruct (register_walked m p name_arg Hreg) as (walked & rest & _ & _ & Hlook).
  intros h hc Hh. rewrite Hlook, Hh.
  destruct (extend_caller_Some h hc
              (entries_impls p (py_or name_arg (_canonical_name p)) walked h))
    as (hc' & -> & Hn & Hf & _).
  exists hc'. by split_and!.
Qed.

Lemma callers_kept_unregister (specs : bool) m (plugin_arg : option Plugin)
    (name_arg : option string) :
  callers_kept specs (hook m) (hook (unregister m plugin_arg name_arg).1).
Proof.
  unfold unregister.
  destruct (resolve_plugin m plugin_arg name_arg) as [p|];
    [|apply callers_kept_refl].
  cbn. intros h hc Hh. rewrite lookup_fmap, Hh. cbn. eexists. by split.
Qed.

Lemma callers_kept_add_hookspecs m (spec_class : list (string * option SpecMethod)) :
  callers_kept true (hook m) (hook (add_hookspecs m spec_class).1).
Proof.
  destruct (add_hookspecs_hook_prefix m spec_class) as (pre & post & _ & -> & _).
  intros h hc Hh. rewrite foldl_declare_attr_lookup. cbn [fst]. rewrite Hh.
  destruct (declared_policy h pre); [|by exists hc].
  eexists. split; [done|]. by split.
Qed.

Lemma callers_kept_load (specs : bool) m (group : string)
    (distributions : list Distribution) :
  callers_kept specs (hook m)
    (hook (load_setuptools_entrypoints m group distributions).1).
Proof.
  rewrite load_setuptools_entrypoints_flat. cbn zeta. cbn [fst].
  refine (run_each_rel (λ st st', callers_kept specs (hook st.1) (hook st'.1))
           (λ st x, load_entry_point group x.1 st x.2)
           (all_entry_points distributions) _ _ _ (m, 0)).
  - intros st. apply callers_kept_refl.
  - intros s1 s2 s3. apply callers_kept_trans.
  - intros st [dist ep] _. cbn [fst snd].
    destruct (load_entry_point_cases group dist st ep)
      as [->|(p & _ & _ & _ & [(r & Hr & ->)|(e & He & ->)])]; cbn [fst].
    + apply callers_kept_refl.
    + apply callers_kept_register.
    + apply callers_kept_register.
Qed.

Lemma unregister_distinfo m (plugin_arg : option Plugin) (name_arg : option string) :
  _plugin_distinfo (unregister m plugin_arg name_arg).1 = _plugin_distinfo m.
Proof. unfold unregister. by destruct (resolve_plugin m plugin_arg name_arg). Qed.

(** What a load appends to the distribution list, however it ended, and
    what the tables keep. *)
Lemma load_all_added m group distributions :
  ∃ added,
    _plugin_distinfo (load_setuptools_entrypoints m group distributions).1
    = _plugin_distinfo m ++ added
    ∧ dom (_plugin2name m)
      ⊆ dom (_plugin2name (load_setuptools_entrypoints m group distributions).1)
    ∧ ∀ p d, (p, d) ∈ added →
        py_id p ∈ dom (_plugin2name
                         (load_setuptools_entrypoints m group distributions).1)
        ∧ ∃ dist ep, dist ∈ distributions ∧ ep ∈ entry_points dist
                     ∧ ep_group ep = group ∧ ep_load ep = Some p
                     ∧ d = {| _dist := dist |}.
Proof.
  rewrite load_setuptools_entrypoints_flat. cbn zeta. cbn [fst].
  refine (run_each_rel
           (λ st st', ∃ added,
              _plugin_distinfo st'.1 = _plugin_distinfo st.1 ++ added
              ∧ dom (_plugin2name st.1) ⊆ dom (_plugin2name st'.1)
              ∧ ∀ p d, (p, d) ∈ added →
                  py_id p ∈ dom (_plugin2name st'.1)
                  ∧ ∃ dist ep, dist ∈ distributions ∧ ep ∈ entry_points dist
                               ∧ ep_group ep = group ∧ ep_load ep = Some p
                               ∧ d = {| _dist := dist |})
           (λ st x, load_entry_point group x.1 st x.2)
           (all_entry_points distributions) _ _ _ (m, 0)).
  - intros st. exists []. rewrite app_nil_r. split_and!; [done..|].
    by intros p d ?%elem_of_nil.
  - intros s1 s2 s3 (a1 & D1 & P1 & H1) (a2 & D2 & P2 & H2).
    exists (a1 ++ a2). rewrite D2, D1, app_assoc. split_and!; [done|set_solver|].
    intros p d [Hin|Hin]%elem_of_app.
    + destruct (H1 p d Hin) as [Hreg Hfrom]. split; [set_solver|done].
    + by apply H2.
  - intros st [dist ep] [Hdist Hep]%elem_of_all_entry_points. cbn [fst snd].
    destruct (load_entry_point_cases group dist st ep)
      as [->|(p & Hg & _ & Hl & [(r & Hr & ->)|(e & He & ->)])]; cbn [fst].
    + exists []. rewrite app_nil_r. split_and!; [done..|].
      by intros p d ?%elem_of_nil.
    + exists [(p, {| _dist := dist |})].
      cbn [append_distinfo _plugin_distinfo _plugin2name].
      rewrite register_distinfo, register_dom. split_and!; [done|set_solver|].
      intros p' d [= -> ->]%list_elem_of_singleton. split; [set_solver|].
      by exists dist, ep.
    + exists []. rewrite app_nil_r, register_distinfo, register_dom.
      split_and!; [done|set_solver|]. by intros p' d ?%elem_of_nil.
Qed.
End kept.

(** X20: hook callers are never destroyed: after any sequence of operations a
    hook caller is still in the relay under its name, also when all its
    implementations were unregistered; and unless [add_hookspecs] is among
    the operations, its [firstresult] flag is what it was. *)
Theorem hook_callers_are_kept (specs : bool) (m m' : PluginManager) (h : string)
    (hc : HookCaller) :
  steps specs m m' →
  hook m !! h = Some hc →
  ∃ hc', hook m' !! h = Some hc' ∧ name hc' = name hc
         ∧ (specs = false → _firstresult hc' = _firstresult hc).
Proof.
  intros Hsteps. revert h hc. change (callers_kept specs (hook m) (hook m')).
  induction Hsteps as [m|m m' p name_arg _ IH|m m' plugin_arg name_arg _ IH
                       |m m' group distributions _ IH|m m' spec_class -> _ IH].
  - apply callers_kept_refl.
  - eapply callers_kept_trans; [apply IH | apply callers_kept_register].
  - eapply callers_kept_trans; [apply IH | apply callers_kept_unregister].
  - eapply callers_kept_trans; [apply IH | apply callers_kept_load].
  - eapply callers_kept_trans; [apply IH | apply callers_kept_add_hookspecs].
Qed.

(** X21: no operation removes or reorders an entry of the distribution list:
    after any sequence of operations the old list is an initial stretch of
    the new one, so an entry outlives the unregistration of its plugin. *)
Theorem distinfo_only_grows (specs : bool) (m m' : PluginManager) :
  steps specs m m' →
  ∃ added, _plugin_distinfo m' = _plugin_distinfo m ++ added.
Proof.
  induction 1 as [m|m m' p name_arg _ [added IH]
                  |m m' plugin_arg name_arg _ [added IH]
                  |m m' group distributions _ [added IH]
                  |m m' spec_class _ _ [added IH]].
  - exists []. by rewrite app_nil_r.
  - exists added. by rewrite register_distinfo.
  - exists added. by rewrite unregister_distinfo.
  - destruct (load_all_added m' group distributions) as (more & D & _).
    exists (added ++ more). by rewrite D, IH, app_assoc.
  - by exists added.
Qed.

(** * More on loading entry points *)

(** X22: when every entry point is of another group, or has a name that is
    already bound, or fails to load (in particular when there is none), the
    loader returns 0 and the manager is as it was. *)
Theorem load_nothing_to_load (m : PluginManager) (group : string)
    (distributions : list Distribution) :
  (∀ dist ep, dist ∈ distributions → ep ∈ entry_points dist →
     ep_group ep ≠ group ∨ ep_name ep ∈ dom (_name2plugin m) ∨ ep_load ep = None) →
  load_setuptools_entrypoints m group distributions = (m, Returned 0).
Proof.
  intros Hskip. rewrite load_setuptools_entrypoints_flat. cbn zeta.
  rewrite run_each_skip; [done|].
  intros [dist ep] [Hdist Hep]%elem_of_all_entry_points.
  apply load_entry_point_skip. by apply (Hskip dist).
Qed.

Lemma register_named_keeps_bindings (m : PluginManager) (p : Plugin) (n : string) :
  n ≠ EmptyString →
  n ∉ dom (_name2plugin m) →
  _name2plugin m ⊆ _name2plugin (register m p (Some n)).1
  ∧ _plugin2name m ⊆ _plugin2name (register m p (Some n)).1.
Proof.
  intros Hn Hfree. destruct (decide (py_id p ∈ dom (_plugin2name m))) as [Hreg|Hreg].
  { by rewrite register_registered. }
  rewrite register_fresh by done. cbn [fst _name2plugin _plugin2name].
  assert (py_or (Some n) (_canonical_name p) = n) as -> by by destruct n.
  split; apply insert_subseteq; by apply not_elem_of_dom.
Qed.

(** X23: the loader, given entry points with non-empty names, rebinds nothing:
    every name and every identity bound before is bound to the same plugin
    and name afterwards, whether the load returns or raises. *)
Theorem load_keeps_bindings (m m' : PluginManager) (group : string)
    (distributions : list Distribution) (r : Outcome nat) :
  (∀ dist ep, dist ∈ distributions → ep ∈ entry_points dist →
     ep_name ep ≠ EmptyString) →
  load_setuptools_entrypoints m group distributions = (m', r) →
  (∀ n q, _name2plugin m !! n = Some q → _name2plugin m' !! n = Some q)
  ∧ (∀ pid n, _plugin2name m !! pid = Some n → _plugin2name m' !! pid = Some n).
Proof.
  intros Hnames Hload.
  assert (_name2plugin m ⊆ _name2plugin m' ∧ _plugin2name m ⊆ _plugin2name m')
    as [Hn Hp]; [|split; intros ? ? Hl; by eapply lookup_weaken].
  assert (m' = (load_setuptools_entrypoints m group distributions).1) as ->
    by by rewrite Hload.
  rewrite load_setuptools_entrypoints_flat. cbn zeta. cbn [fst].
  refine (run_each_rel
           (λ st st', _name2plugin st.1 ⊆ _name2plugin st'.1
                      ∧ _plugin2name st.1 ⊆ _plugin2name st'.1)
           (λ st x, load_entry_point group x.1 st x.2)
           (all_entry_points distributions) _ _ _ (m, 0)).
  - done.
  - intros s1 s2 s3 [H1 H2] [H3 H4]. split; by etrans.
  - intros st [dist ep] [Hdist Hep]%elem_of_all_entry_points. cbn [fst snd].
    destruct (load_entry_point_cases group dist st ep)
      as [->|(p & _ & Hfree & _ & [(r0 & Hr & ->)|(e & He & ->)])]; cbn [fst];
      [done|..];
      apply register_named_keeps_bindings; try done; by apply (Hnames dist).
Qed.

(** X24: every entry that a load appends to the distribution list pairs a plugin
    with the distribution one of whose entry points, of the requested
    group, loaded it; and that plugin is registered when the load is over,
    whether it returns or raises. *)
Theorem load_records_loaded_plugins (m m' : PluginManager) (group : string)
    (distributions : list Distribution) (r : Outcome nat) :
  load_setuptools_entrypoints m group distributions = (m', r) →
  ∃ added,
    list_plugin_distinfo m' = list_plugin_distinfo m ++ added
    ∧ ∀ p d, (p, d) ∈ added →
        is_registered m' p = true
        ∧ ∃ dist ep, dist ∈ distributions ∧ ep ∈ entry_points dist
                     ∧ ep_group ep = group ∧ ep_load ep = Some p
                     ∧ d = {| _dist := dist |}.
Proof.
  intros Hload.
  destruct (load_all_added m group distributions) as (added & D & _ & Hfrom).
  rewrite Hload in D, Hfrom. cbn [fst] in D, Hfrom.
  exists added. split; [done|]. intros p d Hin.
  destruct (Hfrom p d Hin) as [Hreg Hep]. split; [|done].
  by apply is_registered_true.
Qed.

(** * The further properties on the sample plugins *)

Lemma signature_selects_keyword_parameters_witness :
  fn_signature callable_a_x_args_y = Some params_a_x_args_y
  ∧ existsb is_var_keyword params_a_x_args_y = false
  ∧ ∃ kw,
      _call_impl (HookImpl_init callable_a_x_args_y plugin_A "A") kwargs_a_x_y_z
      = invoke (HookImpl_init callable_a_x_args_y plugin_A "A") kw
      ∧ ∀ key v,
          kw !! key = Some v
          ↔ kwargs_a_x_y_z !! key = Some v
            ∧ ∃ prm, prm ∈ params_a_x_args_y ∧ param_name prm = key
                     ∧ (param_kind prm = POSITIONAL_OR_KEYWORD
                        ∨ param_kind prm = KEYWORD_ONLY).
Proof.
  split; [reflexivity|]. split; [reflexivity|].
  apply (signature_selects_keyword_parameters callable_a_x_args_y plugin_A "A"
           params_a_x_args_y kwargs_a_x_y_z); reflexivity.
Defined.

(** Out of [a, x, y, z] the function [f(a, /, x, *args, y)] is given [x]
    and [y]. *)
Example a_x_args_y_receives_x_y :
  _call_impl (HookImpl_init callable_a_x_args_y plugin_A "A") kwargs_a_x_y_z
  = invoke (HookImpl_init callable_a_x_args_y plugin_A "A")
      {[ "x"%string := PyInt 1; "y"%string := PyInt 2 ]}.
Proof. vm_compute. reflexivity. Qed.

Lemma code_object_selects_leading_varnames_witness :
  fn_signature code_only_callable = None
  ∧ ∃ kw,
      _call_impl (HookImpl_init code_only_callable plugin_A "A") kwargs_a_x_y_z
      = invoke (HookImpl_init code_only_callable plugin_A "A") kw
      ∧ ∀ key v,
          kw !! key = Some v
          ↔ kwargs_a_x_y_z !! key = Some v
            ∧ ∃ i, ["x"; "y"; "tmp"]%string !! i = Some key ∧ i < 1 + 1.
Proof.
  split; [reflexivity|].
  apply (code_object_selects_leading_varnames code_only_callable plugin_A "A"
           {| co_argcount := 1; co_kwonlyargcount := 1;
              co_varnames := ["x"; "y"; "tmp"]%string |} kwargs_a_x_y_z);
    reflexivity.
Defined.

Lemma dispatch_propagates_exception_witness :
  answer ∅ impl_raising = Raised (HostError "boom")
  ∧ HookCaller_call caller_A_raising_C ∅
    = (call_of ∅ <$> ([impl_C] ++ [impl_raising]), Raised (HostError "boom")).
Proof.
  split; [reflexivity|].
  apply (dispatch_propagates_exception caller_A_raising_C ∅ [impl_C] [impl_A]
           impl_raising (HostError "boom")); [reflexivity | | reflexivity].
  constructor; [|constructor]. exists (PyStr "C"). split; [reflexivity|discriminate].
Defined.

Lemma firstresult_is_head_of_collected_witness :
  answer ∅ <$> reverse (_hookimpls caller_ABC)
  = Returned <$> [PyStr "C"; PyStr "B"; PyStr "A"]
  ∧ ∃ collected,
      (HookCaller_call (set_firstresult caller_ABC false) ∅).2
      = Returned (PyList collected)
      ∧ (HookCaller_call (set_firstresult caller_ABC true) ∅).2
        = Returned (hd PyNone collected).
Proof.
  split; [reflexivity|].
  apply (firstresult_is_head_of_collected caller_ABC ∅
           [PyStr "C"; PyStr "B"; PyStr "A"]). reflexivity.
Defined.

Lemma plugin_C_unregistered_in_AB : is_registered manager_AB plugin_C = false.
Proof. vm_compute. reflexivity. Qed.

Lemma register_C_returns :
  (register manager_AB plugin_C None).2 = Returned (Some "C"%string).
Proof. vm_compute. reflexivity. Qed.

Lemma register_extends_relay_witness :
  is_registered manager_AB plugin_C = false
  ∧ (register manager_AB plugin_C None).2 = Returned (Some "C"%string)
  ∧ impls_of (hook (register manager_AB plugin_C None).1) "h"
    = impls_of (hook manager_AB) "h"
      ++ plugin_impls plugin_C (py_or None (_canonical_name plugin_C)) "h".
Proof.
  split; [apply plugin_C_unregistered_in_AB|]. split; [apply register_C_returns|].
  apply (proj2 (proj2 (register_extends_relay manager_AB plugin_C None "h"
                         plugin_C_unregistered_in_AB))
           (Some "C"%string) register_C_returns).
Defined.

(** For [plugin_str], whose registration raises at [__str__], the hook [g]
    got its record and the hook [h] none. *)
Example register_extends_relay_until_raise :
  impls_of (hook (register fresh_manager plugin_str None).1) "g"
  = plugin_impls plugin_str "Str" "g"
  ∧ impls_of (hook (register fresh_manager plugin_str None).1) "h" = []
  ∧ length (plugin_impls plugin_str "Str" "h") = 1.
Proof. vm_compute. split_and!; reflexivity. Qed.

Lemma last_registered_is_dispatched_first_witness :
  is_registered manager_AB_first plugin_C = false
  ∧ implements plugin_C "h" = true
  ∧ (register manager_AB_first plugin_C None).2 = Returned (Some "C"%string)
  ∧ ∃ hc' impl,
      hook (register manager_AB_first plugin_C None).1 !! "h"%string = Some hc'
      ∧ plugin impl = plugin_C
      ∧ reverse (_hookimpls hc')
        = impl :: reverse (impls_of (hook manager_AB_first) "h")
      ∧ ∀ kwargs result,
          _firstresult hc' = true →
          answer kwargs impl = Returned result →
          result ≠ PyNone →
          HookCaller_call hc' kwargs = ([call_of kwargs impl], Returned result).
Proof.
  assert (is_registered manager_AB_first plugin_C = false) as Hc
    by (vm_compute; reflexivity).
  assert ((register manager_AB_first plugin_C None).2 = Returned (Some "C"%string))
    as Hret by (vm_compute; reflexivity).
  split; [exact Hc|]. split; [reflexivity|]. split; [exact Hret|].
  exact (last_registered_is_dispatched_first manager_AB_first plugin_C None "h"
           (Some "C"%string) Hc eq_refl Hret).
Defined.

(** With [h] declared [firstresult], registering [C] after [A] and [B]
    makes the dispatch answer with the result of [C]. *)
Example dispatch_after_registering_C :
  (HookCaller_call
     (default (HookCaller_init "h" false)
        (hook (register manager_AB_first plugin_C None).1 !! "h"%string)) ∅).2
  = Returned (PyStr "C").
Proof. vm_compute. reflexivity. Qed.

Lemma register_then_unregister_witness :
  reachable manager_AB
  ∧ is_registered manager_AB plugin_C = false
  ∧ _name2plugin manager_AB !! py_or None (_canonical_name plugin_C) = None
  ∧ _name2plugin (unregister (register manager_AB plugin_C None).1
                    (Some plugin_C) None).1 = _name2plugin manager_AB
  ∧ list_name_plugin (unregister (register manager_AB plugin_C None).1
                        (Some plugin_C) None).1 = list_name_plugin manager_AB
  ∧ _plugin2name (unregister (register manager_AB plugin_C None).1
                    (Some plugin_C) None).1 = _plugin2name manager_AB.
Proof.
  assert (_name2plugin manager_AB !! py_or None (_canonical_name plugin_C) = None)
    as Hn by (vm_compute; reflexivity).
  pose proof (register_then_unregister manager_AB _ plugin_C None _
                reachable_manager_AB plugin_C_unregistered_in_AB Hn
                (surjective_pairing _)) as (_ & Hn2p & Hlist & Hp2n & _).
  split_and!; [apply reachable_manager_AB | apply plugin_C_unregistered_in_AB
              | exact Hn | exact Hn2p | exact Hlist | exact Hp2n].
Defined.

(** A hook caller created for a plugin stays when the plugin is
    unregistered: for [C] registered into a new manager and unregistered
    again, and for [plugin_str], whose registration raised after the hook
    caller of [g] was made. *)
Example hook_caller_stays_after_unregister :
  hook (unregister (register fresh_manager plugin_C None).1 (Some plugin_C) None).1
  = {[ "h"%string := HookCaller_init "h" false ]}
  ∧ hook (unregister (register fresh_manager plugin_str None).1
            (Some plugin_str) None).1
    = {[ "g"%string := HookCaller_init "g" false ]}.
Proof. vm_compute. split; reflexivity. Qed.

Lemma unregister_by_name_or_object_witness :
  reachable manager_AB
  ∧ _name2plugin manager_AB !! "A"%string = Some plugin_A
  ∧ unregister manager_AB None (Some "A"%string)
    = unregister manager_AB (Some plugin_A) None
  ∧ unregister manager_AB (Some plugin_A) (Some "A"%string)
    = unregister manager_AB (Some plugin_A) None.
Proof.
  assert (_name2plugin manager_AB !! "A"%string = Some plugin_A) as Ha
    by (vm_compute; reflexivity).
  split; [apply reachable_manager_AB|]. split; [exact Ha|].
  exact (unregister_by_name_or_object manager_AB plugin_A "A"
           reachable_manager_AB Ha).
Defined.

Lemma unregister_again_is_noop_witness :
  reachable manager_AB
  ∧ (unregister manager_AB None (Some "A"%string)).2 = Some plugin_A
  ∧ unregister (unregister manager_AB None (Some "A"%string)).1 (Some plugin_A) None
    = ((unregister manager_AB None (Some "A"%string)).1, Some plugin_A).
Proof.
  assert ((unregister manager_AB None (Some "A"%string)).2 = Some plugin_A) as Hr
    by (vm_compute; reflexivity).
  assert (unregister manager_AB None (Some "A"%string)
          = ((unregister manager_AB None (Some "A"%string)).1, Some plugin_A)) as Hun
    by (rewrite <- Hr; apply surjective_pairing).
  split; [apply reachable_manager_AB|]. split; [exact Hr|].
  apply (unregister_again_is_noop manager_AB _ None (Some "A"%string) plugin_A
           reachable_manager_AB Hun).
Defined.

Lemma registered_name_resolution_witness :
  is_registered manager_AB plugin_C = false
  ∧ _plugin2name (register manager_AB plugin_C (Some EmptyString)).1
      !! py_id plugin_C = Some "C"%string
  ∧ _name2plugin (register manager_AB plugin_C (Some EmptyString)).1 !! "C"%string
    = Some plugin_C.
Proof.
  split; [apply plugin_C_unregistered_in_AB|].
  pose proof (registered_name_resolution manager_AB plugin_C (Some EmptyString)
                plugin_C_unregistered_in_AB) as (Hid & Hname & _).
  split; [exact Hid | exact Hname].
Defined.

Lemma hook_caller_named_as_attribute_witness :
  reachable manager_ABC
  ∧ hook manager_ABC !! "h"%string = Some caller_ABC
  ∧ name caller_ABC = "h"%string.
Proof.
  split; [apply reachable_manager_ABC|]. split; [apply relay_of_manager_ABC|].
  exact (hook_caller_named_as_attribute manager_ABC "h" caller_ABC
           reachable_manager_ABC relay_of_manager_ABC).
Defined.

Lemma impl_B_in_manager_ABC : impl_B ∈ impls_of (hook manager_ABC) "h".
Proof.
  rewrite (impls_of_Some _ _ _ relay_of_manager_ABC). cbn. right. left.
Qed.

Lemma record_carries_registered_name_witness :
  reachable manager_ABC
  ∧ impl_B ∈ impls_of (hook manager_ABC) "h"
  ∧ is_registered manager_ABC (plugin impl_B) = true
  ∧ _plugin2name manager_ABC !! py_id (plugin impl_B) = Some (plugin_name impl_B).
Proof.
  split; [apply reachable_manager_ABC|]. split; [apply impl_B_in_manager_ABC|].
  exact (record_carries_registered_name manager_ABC "h" impl_B
           reachable_manager_ABC impl_B_in_manager_ABC).
Defined.

Lemma record_argnames_from_inspector_witness :
  reachable manager_ABC
  ∧ impl_B ∈ impls_of (hook manager_ABC) "h"
  ∧ argnames impl_B = _get_argnames (function impl_B).
Proof.
  split; [apply reachable_manager_ABC|]. split; [apply impl_B_in_manager_ABC|].
  exact (proj1 (record_argnames_from_inspector manager_ABC "h" impl_B ∅
                  reachable_manager_ABC impl_B_in_manager_ABC)).
Defined.

Lemma list_name_plugin_distinct_witness :
  reachable manager_same_name
  ∧ NoDup (list_name_plugin manager_same_name).*1
  ∧ NoDup (py_id <$> (list_name_plugin manager_same_name).*2).
Proof.
  pose proof (list_name_plugin_distinct manager_same_name
                reachable_manager_same_name) as (Hn & Hp & _).
  split_and!; [apply reachable_manager_same_name | exact Hn | exact Hp].
Defined.

Lemma steps_to_manager_first_emptied : steps false manager_AB_first manager_first_emptied.
Proof. unfold manager_first_emptied. do 2 apply steps_unregister. apply steps_refl. Qed.

Lemma hook_callers_are_kept_witness :
  steps false manager_AB_first manager_first_emptied
  ∧ hook manager_AB_first !! "h"%string = Some caller_AB_first
  ∧ ∃ hc', hook manager_first_emptied !! "h"%string = Some hc'
           ∧ name hc' = name caller_AB_first
           ∧ (false = false → _firstresult hc' = _firstresult caller_AB_first).
Proof.
  split; [apply steps_to_manager_first_emptied|].
  split; [apply relay_of_manager_AB_first|].
  exact (hook_callers_are_kept false manager_AB_first manager_first_emptied "h"
           caller_AB_first steps_to_manager_first_emptied relay_of_manager_AB_first).
Defined.

(** With its implementations gone, the [firstresult] hook answers [None]. *)
Example emptied_hook_returns_none :
  hook manager_first_emptied !! "h"%string
  = Some {| name := "h"; _hookimpls := []; _firstresult := true |}
  ∧ HookCaller_call {| name := "h"; _hookimpls := []; _firstresult := true |} ∅
    = ([], Returned PyNone).
Proof. vm_compute. split; reflexivity. Qed.

Lemma steps_to_manager_loaded_unregistered :
  steps true fresh_manager manager_loaded_unregistered.
Proof.
  unfold manager_loaded_unregistered. apply steps_unregister, steps_load, steps_refl.
Qed.

Lemma distinfo_only_grows_witness :
  steps true fresh_manager manager_loaded_unregistered
  ∧ ∃ added,
      _plugin_distinfo manager_loaded_unregistered
      = _plugin_distinfo fresh_manager ++ added.
Proof.
  split; [apply steps_to_manager_loaded_unregistered|].
  exact (distinfo_only_grows true fresh_manager manager_loaded_unregistered
           steps_to_manager_loaded_unregistered).
Defined.

(** The entries of [A] stay in the distribution list after [A] was
    unregistered. *)
Example stale_distinfo_after_unregister :
  is_registered manager_loaded_unregistered plugin_A = false
  ∧ length (list_plugin_distinfo manager_loaded_unregistered) = 2.
Proof. vm_compute. split; reflexivity. Qed.

Lemma nothing_to_load_from_dist_nothing (dist : Distribution) (ep : EntryPoint) :
  dist ∈ [dist_nothing] → ep ∈ entry_points dist →
  ep_group ep ≠ "jac"%string
  ∨ ep_name ep ∈ dom (_name2plugin manager_AB) ∨ ep_load ep = None.
Proof.
  intros ->%list_elem_of_singleton Hep. cbn in Hep.
  apply elem_of_cons in Hep as [->|Hep]; [left; discriminate|].
  apply elem_of_cons in Hep as [->|Hep].
  { right. left. apply elem_of_dom. exists plugin_A. vm_compute. reflexivity. }
  apply list_elem_of_singleton in Hep as ->. right. right. reflexivity.
Qed.

Lemma load_nothing_to_load_witness :
  load_setuptools_entrypoints manager_AB "jac" [dist_nothing]
  = (manager_AB, Returned 0).
Proof.
  exact (load_nothing_to_load manager_AB "jac" [dist_nothing]
           nothing_to_load_from_dist_nothing).
Defined.

Lemma names_of_dist_C (dist : Distribution) (ep : EntryPoint) :
  dist ∈ [dist_C] → ep ∈ entry_points dist → ep_name ep ≠ EmptyString.
Proof.
  intros ->%list_elem_of_singleton Hep. cbn in Hep.
  apply list_elem_of_singleton in Hep as ->. discriminate.
Qed.

Lemma load_keeps_bindings_witness :
  _name2plugin manager_AB !! "A"%string = Some plugin_A
  ∧ _name2plugin (load_setuptools_entrypoints manager_AB "jac" [dist_C]).1
      !! "A"%string = Some plugin_A.
Proof.
  assert (_name2plugin manager_AB !! "A"%string = Some plugin_A) as Ha
    by (vm_compute; reflexivity).
  split; [exact Ha|].
  exact (proj1 (load_keeps_bindings manager_AB _ "jac" [dist_C] _ names_of_dist_C
                  (surjective_pairing _)) "A"%string plugin_A Ha).
Defined.

Lemma names_of_dist_str (dist : Distribution) (ep : EntryPoint) :
  dist ∈ [dist_str] → ep ∈ entry_points dist → ep_name ep ≠ EmptyString.
Proof.
  intros ->%list_elem_of_singleton Hep. cbn in Hep.
  apply elem_of_cons in Hep as [->|Hep]; [discriminate|].
  apply list_elem_of_singleton in Hep as ->. discriminate.
Qed.

(** The bindings of [A] and [B] are also kept by a load that raises. *)
Example load_keeps_bindings_on_raise :
  (load_setuptools_entrypoints manager_AB "jac" [dist_str]).2
  = Raised (AttributeError "__str__")
  ∧ _name2plugin (load_setuptools_entrypoints manager_AB "jac" [dist_str]).1
      !! "A"%string = Some plugin_A
  ∧ _plugin2name (load_setuptools_entrypoints manager_AB "jac" [dist_str]).1
      !! py_id plugin_B = Some "B"%string.
Proof. vm_compute. split_and!; reflexivity. Qed.

Lemma load_records_loaded_plugins_witness :
  ∃ added,
    list_plugin_distinfo (load_setuptools_entrypoints manager_AB "jac" [dist_C]).1
    = list_plugin_distinfo manager_AB ++ added
    ∧ ∀ p d, (p, d) ∈ added →
        is_registered (load_setuptools_entrypoints manager_AB "jac" [dist_C]).1 p
        = true
        ∧ ∃ dist ep, dist ∈ [dist_C] ∧ ep ∈ entry_points dist
                     ∧ ep_group ep = "jac"%string ∧ ep_load ep = Some p
                     ∧ d = {| _dist := dist |}.
Proof.
  exact (load_records_loaded_plugins manager_AB _ "jac" [dist_C] _
           (surjective_pairing _)).
Defined.

(** Loading [dist_C] into the manager of [A] and [B] registers [C] under
    the advertised name and records it with its distribution, whose version
    is read from its metadata. *)
Example load_dist_C :
  (load_setuptools_entrypoints manager_AB "jac" [dist_C]).2 = Returned 1
  ∧ _name2plugin (load_setuptools_entrypoints manager_AB "jac" [dist_C]).1
      !! "c"%string = Some plugin_C
  ∧ (λ pd, version pd.2)
      <$> list_plugin_distinfo (load_setuptools_entrypoints manager_AB "jac" [dist_C]).1
    = ["1.0"%string].
Proof. vm_compute. split_and!; reflexivity. Qed.

(** Declaring [spec_init] a second time raises as the first time did, and
    leaves the manager as it was. *)
Example add_hookspecs_twice_raises_twice :
  (add_hookspecs (add_hookspecs manager_AB spec_init).1 spec_init).2
  = Raised (AttributeError "__init__")
  ∧ hook (add_hookspecs (add_hookspecs manager_AB spec_init).1 spec_init).1
    = hook manager_AB.
Proof. vm_compute. split; reflexivity. Qed.

(** * Where [add_hookspecs] raises, and the order of the names *)

(** X25: [add_hookspecs] raises only [AttributeError], at a marked member
    whose name, other than [__class__], the relay has as something that is
    neither a hook caller nor free; the manager is then as the members
    before that one left it, all of which were gone through without a
    raise. *)
Theorem add_hookspecs_raises_at_blocked_name (m : PluginManager)
    (spec_class : list (string * option SpecMethod)) (e : Exn) :
  (add_hookspecs m spec_class).2 = Raised e →
  ∃ pre attr method post,
    spec_class = pre ++ (attr, method) :: post
    ∧ e = AttributeError attr
    ∧ is_Some (spec_firstresult method)
    ∧ attr ≠ "__class__"%string
    ∧ add_hookspecs m pre = ((add_hookspecs m spec_class).1, Returned tt)
    ∧ relay_blocks (add_hookspecs m spec_class).1 attr = true.
Proof.
  unfold add_hookspecs, relay_blocks. cbn [fst snd hook hook_class].
  destruct (run_each add_hookspec_attr (hook m, hook_class m) spec_class)
    as [st' r] eqn:Hrun.
  cbn [fst snd]. intros ->.
  apply run_each_raised in Hrun as (pre & [attr method] & post & s0 & -> & Hpre & Hx).
  apply add_hookspec_attr_raised in Hx as (-> & -> & Hmarked & Hne & Hblocked).
  exists pre, attr, method, post. rewrite Hpre. by split_and!.
Qed.

Lemma list_name_plugin_insert_new (n2p : gmap string Plugin) (keys : list string)
    (pname : string) (p : Plugin) :
  pname ∉ keys →
  omap (λ n, (λ q, (n, q)) <$> <[pname := p]> n2p !! n) (keys ++ [pname])
  = omap (λ n, (λ q, (n, q)) <$> n2p !! n) keys ++ [(pname, p)].
Proof.
  intros Hnew. rewrite omap_app. cbn. rewrite lookup_insert_eq. cbn. f_equal.
  induction keys as [|k keys IH]; [done|].
  apply not_elem_of_cons in Hnew as [Hne Hnew]. cbn.
  rewrite lookup_insert_ne by done. by rewrite IH.
Qed.

Lemma list_name_plugin_insert_bound (n2p : gmap string Plugin) (keys : list string)
    (pname : string) (p : Plugin) :
  (∀ k, k ∈ keys → is_Some (n2p !! k)) →
  omap (λ n, (λ q, (n, q)) <$> <[pname := p]> n2p !! n) keys
  = (λ nq, if decide (nq.1 = pname) then (pname, p) else nq)
      <$> omap (λ n, (λ q, (n, q)) <$> n2p !! n) keys.
Proof.
  intros Hbound. induction keys as [|k keys IH]; [done|].
  destruct (Hbound k) as [q Hq]; [left|]. cbn. rewrite Hq. cbn.
  rewrite IH by (intros k' Hk'; apply Hbound; by right).
  destruct (decide (k = pname)) as [->|Hne].
  - by rewrite lookup_insert_eq.
  - by rewrite lookup_insert_ne, Hq by done.
Qed.

(** X26: [list_name_plugin] lists the bindings in the order in which their
    names were first bound: registering an unregistered plugin under a new
    name puts its binding last, and under a name that is bound already it
    replaces that binding where it stands. *)
Theorem register_appends_to_list_name_plugin (m : PluginManager) (p : Plugin)
    (name_arg : option string) :
  reachable m →
  is_registered m p = false →
  list_name_plugin (register m p name_arg).1
  = if bool_decide (py_or name_arg (_canonical_name p) ∈ dom (_name2plugin m))
    then (λ nq, if decide (nq.1 = py_or name_arg (_canonical_name p))
                then (py_or name_arg (_canonical_name p), p) else nq)
           <$> list_name_plugin m
    else list_name_plugin m ++ [(py_or name_arg (_canonical_name p), p)].
Proof.
  intros Hm%reachable_consistent Hfresh%is_registered_false.
  rewrite register_fresh by by apply not_elem_of_dom.
  unfold list_name_plugin. cbn [fst _name2plugin _name2plugin_keys].
  case_bool_decide as Hbound.
  - apply list_name_plugin_insert_bound. intros k Hk. by apply (keys_bound m Hm).
  - apply list_name_plugin_insert_new. intros Hk%(keys_bound m Hm).
    by apply elem_of_dom in Hk.
Qed.

Lemma add_hookspecs_raises_at_blocked_name_witness :
  (add_hookspecs manager_AB spec_init).2 = Raised (AttributeError "__init__")
  ∧ ∃ pre attr method post,
      spec_init = pre ++ (attr, method) :: post
      ∧ AttributeError "__init__" = AttributeError attr
      ∧ relay_blocks (add_hookspecs manager_AB spec_init).1 attr = true.
Proof.
  assert ((add_hookspecs manager_AB spec_init).2 = Raised (AttributeError "__init__"))
    as Hraised by (vm_compute; reflexivity).
  split; [exact Hraised|].
  destruct (add_hookspecs_raises_at_blocked_name manager_AB spec_init
              (AttributeError "__init__") Hraised)
    as (pre & attr & method & post & E & He & _ & _ & _ & Hb).
  exists pre, attr, method, post. split_and!; [exact E | exact He | exact Hb].
Defined.

Lemma register_appends_to_list_name_plugin_witness :
  reachable manager_AB
  ∧ is_registered manager_AB plugin_C = false
  ∧ list_name_plugin (register manager_AB plugin_C None).1
    = list_name_plugin manager_AB ++ [("C"%string, plugin_C)]
  ∧ list_name_plugin (register manager_AB plugin_C (Some "A"%string)).1
    = [("A"%string, plugin_C); ("B"%string, plugin_B)].
Proof.
  split; [apply reachable_manager_AB|]. split; [apply plugin_C_unregistered_in_AB|].
  split.
  - exact (register_appends_to_list_name_plugin manager_AB plugin_C None
             reachable_manager_AB plugin_C_unregistered_in_AB).
  - vm_compute. reflexivity.
Defined.

Lemma add_hookspec_attr_blocked (st : gmap string HookCaller * gmap string bool)
    (attr : string) (method : option SpecMethod) :
  is_Some (spec_firstresult method) → attr ≠ "__class__"%string →
  add_hookspec_attr st (attr, method)
  = if blocks st.2 st.1 attr then (st, Raised (AttributeError attr))
    else (declare_attr st (attr, method), Returned tt).
Proof.
  destruct st as [hooks cls], method as [[[opts|]]|];
    unfold add_hookspec_attr, declare_attr, spec_firstresult, blocks, relay_getattr;
    cbn [_jac_hookspec fst snd]; try by intros [? [=]].
  intros _ Hne. rewrite !decide_False by done.
  by destruct (cls !! attr) as [[]|], (hooks !! attr).
Qed.

Lemma add_hookspecs_run_returns_iff (l : list (string * option SpecMethod))
    (st : gmap string HookCaller * gmap string bool) :
  NoDup l.*1 → declares_class l = false →
  (run_each add_hookspec_attr st l).2 = Returned tt
  ↔ ∀ attr method, (attr, method) ∈ l → is_Some (spec_firstresult method) →
      blocks st.2 st.1 attr = false.
Proof.
  revert st. induction l as [|[a mth] l IH]; intros st Hnodup Hclass.
  { split; [|done]. by intros _ attr method ?%elem_of_nil. }
  rewrite fmap_cons in Hnodup. apply NoDup_cons in Hnodup as [Hfresh Hnodup].
  rewrite declares_class_cons in Hclass.
  apply orb_false_iff in Hclass as [Hhead Hclass]. cbn [run_each].
  destruct (spec_firstresult mth) as [fr|] eqn:Hmarked.
  - assert (a ≠ "__class__"%string) as Hne.
    { intros ->. rewrite bool_decide_eq_true_2 in Hhead by done.
      by rewrite bool_decide_eq_true_2 in Hhead by eauto. }
    rewrite add_hookspec_attr_blocked by (by rewrite ?Hmarked; eauto).
    destruct (blocks st.2 st.1 a) eqn:Hb.
    + split; [done|]. intros Hfree.
      rewrite (Hfree a mth) in Hb; [done|left|]. rewrite Hmarked. eauto.
    + rewrite IH by done.
      assert (∀ attr, attr ∈ l.*1 →
                blocks (declare_attr st (a, mth)).2 (declare_attr st (a, mth)).1 attr
                = blocks st.2 st.1 attr) as Hsame.
      { intros attr Hin. unfold declare_attr. cbn [fst snd]. rewrite Hmarked.
        rewrite decide_False by done. cbn [fst snd].
        apply blocks_insert_ne. by intros ->. }
      split.
      * intros Hrest attr method [[= -> ->]|Hin]%elem_of_cons Hm; [done|].
        rewrite <- Hsame by (apply list_elem_of_fmap; by exists (attr, method)).
        by apply (Hrest attr method).
      * intros Hall attr method Hin Hm.
        rewrite Hsame by (apply list_elem_of_fmap; by exists (attr, method)).
        apply (Hall attr method); [by right|done].
  - assert (add_hookspec_attr st (a, mth) = (st, Returned tt)) as ->.
    { destruct st as [hooks cls]. unfold add_hookspec_attr, spec_firstresult in *.
      destruct mth as [[[opts|]]|]; cbn in *; congruence. }
    rewrite IH by done. split.
    + intros Hrest attr method [[= -> ->]|Hin]%elem_of_cons Hm.
      * rewrite Hmarked in Hm. by destruct Hm.
      * by apply (Hrest attr method).
    + intros Hall attr method Hin Hm. apply (Hall attr method); [by right|done].
Qed.

(** X27: for a spec class without a marked member [__class__] ([dir] lists
    each name once), [add_hookspecs] returns exactly when the relay blocks
    none of the names of its marked methods, that is, when each of them is
    free or that of a hook caller. *)
Theorem add_hookspecs_returns_iff (m : PluginManager)
    (spec_class : list (string * option SpecMethod)) :
  NoDup spec_class.*1 →
  declares_class spec_class = false →
  (add_hookspecs m spec_class).2 = Returned tt
  ↔ ∀ attr method, (attr, method) ∈ spec_class →
      is_Some (spec_firstresult method) → relay_blocks m attr = false.
Proof.
  intros Hnodup Hclass. unfold add_hookspecs, relay_blocks. cbn [snd].
  by rewrite add_hookspecs_run_returns_iff.
Qed.

Lemma add_hookspecs_returns_iff_witness :
  NoDup spec_init.*1
  ∧ declares_class spec_init = false
  ∧ relay_blocks manager_AB "__init__" = true
  ∧ (add_hookspecs manager_AB spec_init).2 ≠ Returned tt.
Proof.
  assert (NoDup spec_init.*1) as Hnodup.
  { apply (bool_decide_unpack _). vm_compute. exact I. }
  assert (relay_blocks manager_AB "__init__" = true) as Hb
    by (vm_compute; reflexivity).
  split_and!; [exact Hnodup | reflexivity | exact Hb |].
  intros Hret.
  pose proof (proj1 (add_hookspecs_returns_iff manager_AB spec_init Hnodup eq_refl)
                Hret "__init__"%string _ (list_elem_of_here _ _)
                (ex_intro _ true eq_refl)) as Hfree.
  rewrite Hb in Hfree. discriminate Hfree.
Defined.
